(** * QSaveFile: safe replacement of a file through a staging file

    A shallow embedding of [src/corelib/io/qsavefile.cpp].  The save file
    object is a record of the private data the methods read and write, the
    file system and the rest of the environment are an explicit [World],
    and every method is a function from the object and the world to its
    return value, the new object and the new world. *)

From Stdlib Require Import ZArith.
From Stdlib.Strings Require Import Byte Ascii String.
From stdpp Require Import base option gmap strings list.

Local Open Scope Z_scope.
Local Open Scope string_scope.

(** ** Values shared with the I/O layer *)

(** [QFileDevice::FileError]. *)
Inductive FileError :=
  | NoError | ReadError | WriteError | FatalError | ResourceError
  | OpenError | AbortError | TimeOutError | UnspecifiedError | RemoveError
  | RenameError | PositionError | ResizeError | PermissionsError | CopyError.

#[global] Instance FileError_eq_dec : EqDecision FileError.
Proof. solve_decision. Defined.

(** [QIODevice::OpenModeFlag], a bit set held in an integer. *)
Module OpenMode.
Definition NotOpen : Z := 0.
Definition ReadOnly : Z := 1.
Definition WriteOnly : Z := 2.
Definition ReadWrite : Z := Z.lor ReadOnly WriteOnly.
Definition Append : Z := 4.
Definition Truncate : Z := 8.
Definition Text : Z := 16.
Definition Unbuffered : Z := 32.
Definition NewOnly : Z := 64.
Definition ExistingOnly : Z := 128.
End OpenMode.

(** The platforms the preprocessor branches of [open] tell apart.
    [Android] also counts as a Unix. *)
Inductive OS := Windows | Android | Unix.

Definition Q_OS_WIN (o : OS) : bool :=
  match o with Windows => true | _ => false end.
Definition Q_OS_ANDROID (o : OS) : bool :=
  match o with Android => true | _ => false end.
Definition Q_OS_UNIX (o : OS) : bool :=
  match o with Windows => false | _ => true end.

Definition EACCES : Z := 13.
Definition EEXIST : Z := 17.
Definition EISDIR : Z := 21.
Definition ELOOP : Z := 40.
Definition ENOENT : Z := 2.

(** What the message handler receives from [qWarning]. *)
Inductive Warning :=
  | WarnAlreadyOpen (name : string)
  | WarnModeNotSpecified
  | WarnUnsupportedMode (mode : Z)
  | WarnNotOpen (name : string).

(** ** The world: file system and environment *)

(** A file system entry.  Permission bits are the nine mode bits. *)
Inductive Node :=
  | File (perms : Z) (data : list byte)
  | Dir (perms : Z)
  | Link (target : string).

(** The way an engine call can fail: the error the engine then reports
    and the [errno] left behind. *)
Record Fault := mkFault {
  f_error : FileError;
  f_message : string;
  f_errno : Z
}.

(** The environment of one save file.  [openFault], [writeFaults] and
    [renameFault] are the failures the platform is going to report, so
    that every pattern of failing calls is some world: [openFault p] for
    opening or creating [p], the head of [writeFaults] for the next write
    (one entry is used up by each write), [renameFault] for the
    replacement of the destination.  [tmpSuffix] is what the temporary
    file engine puts in place of the XXXXXX of its template.
    [legacyEngine] tells the names that a registered handler or a
    built-in engine makes an engine for. *)
Record World := mkWorld {
  files : gmap string Node;
  host : OS;
  umask : Z;
  errno : Z;
  tmpSuffix : string;
  openFault : string -> option Fault;
  writeFaults : list (option Fault);
  renameFault : option Fault;
  console : list Warning;
  legacyEngine : string -> bool
}.

Definition set_files (m : gmap string Node) (w : World) : World :=
  mkWorld m (host w) (umask w) (errno w) (tmpSuffix w) (openFault w)
          (writeFaults w) (renameFault w) (console w) (legacyEngine w).
Definition set_errno (e : Z) (w : World) : World :=
  mkWorld (files w) (host w) (umask w) e (tmpSuffix w) (openFault w)
          (writeFaults w) (renameFault w) (console w) (legacyEngine w).
Definition set_writeFaults (l : list (option Fault)) (w : World) : World :=
  mkWorld (files w) (host w) (umask w) (errno w) (tmpSuffix w) (openFault w)
          l (renameFault w) (console w) (legacyEngine w).
Definition qWarning (m : Warning) (w : World) : World :=
  mkWorld (files w) (host w) (umask w) (errno w) (tmpSuffix w) (openFault w)
          (writeFaults w) (renameFault w) (console w ++ [m]) (legacyEngine w).

(** ** Path metadata: QFileInfo *)

(** [QFileInfo] is implemented in qfileinfo.cpp, which is not among the
    files embedded here.  It is the "path metadata" collaborator of
    section 6 of the specification: [exists], [isDirectory], [isWritable],
    [isSymlink], [symlinkTarget], [permissions].  [isSymLink] and
    [symLinkTarget] look at the entry itself; the other queries look
    through symbolic links, as the platform does when it opens a path. *)

(** Modelled from the spec: the number of links the platform follows in
    one lookup before it gives up; part of the missing path metadata. *)
Definition SYMLOOP_MAX : nat := 40.

(** Modelled from the spec: the lookup behind the missing path metadata.
    [walk fuel m p] follows the links from [p] and gives the path it ends
    in with the entry there, if any; nothing after more than [fuel]
    links. *)
Fixpoint walk (fuel : nat) (m : gmap string Node) (p : string)
  : option (string * option Node) :=
  match m !! p with
  | Some (Link t) =>
      match fuel with
      | O => None
      | S n => walk n m t
      end
  | x => Some (p, x)
  end.

(** Modelled from the spec: the entry a path leads to, through links;
    part of the missing path metadata. *)
Definition stat (w : World) (p : string) : option Node :=
  match walk SYMLOOP_MAX (files w) p with
  | Some (_, x) => x
  | None => None
  end.

(** A [QFileInfo] is the path it was made for; every query is answered
    from the world of the moment. *)
Record QFileInfo := mkQFileInfo { filePath : string }.

Definition setFile (p : string) (fi : QFileInfo) : QFileInfo := mkQFileInfo p.

(** Modelled from the spec: [exists(path)] of the missing path metadata.
    A link whose target is missing does not exist. *)
Definition exists_ (w : World) (fi : QFileInfo) : bool :=
  match stat w (filePath fi) with Some _ => true | None => false end.

(** Modelled from the spec: [isDirectory(path)] of the missing path
    metadata. *)
Definition isDir (w : World) (fi : QFileInfo) : bool :=
  match stat w (filePath fi) with Some (Dir _) => true | _ => false end.

(** Modelled from the spec: [permissions(path)] of the missing path
    metadata, the permission bits of the entry the path leads to. *)
Definition permissions (w : World) (fi : QFileInfo) : Z :=
  match stat w (filePath fi) with
  | Some (File p _) => p
  | Some (Dir p) => p
  | _ => 0
  end.

(** Modelled from the spec: [isWritable(path)] of the missing path
    metadata: writable to the owner, who is the user of the process. *)
Definition isWritable (w : World) (fi : QFileInfo) : bool :=
  match stat w (filePath fi) with
  | Some _ => Z.testbit (permissions w fi) 7
  | None => false
  end.

(** Modelled from the spec: [isSymlink(path)] of the missing path
    metadata. *)
Definition isSymLink (w : World) (fi : QFileInfo) : bool :=
  match files w !! filePath fi with Some (Link _) => true | _ => false end.

(** Modelled from the spec: [symlinkTarget(path)] of the missing path
    metadata. *)
Definition symLinkTarget (w : World) (fi : QFileInfo) : string :=
  match files w !! filePath fi with Some (Link t) => t | _ => EmptyString end.

(** ** File engines *)

(** The engines a save file can hold: the temporary file engine it makes
    itself, and what [QAbstractFileEngine::create] gives, which is the
    engine of a handler or a built-in engine where there is one for the
    name, and the regular file engine otherwise. *)
Inductive EngineKind := TemporaryFileEngine | FSFileEngine | LegacyEngine.

(** The part of an engine the save file relies on.  [enginePath] is the
    file the engine works on: for a temporary file engine the template
    until the file is created, the name of the created file afterwards.
    [fileError] and [engineErrorString] are the fields of
    [QAbstractFileEnginePrivate]; a new engine reports [UnspecifiedError]. *)
Record FileEngine := mkFileEngine {
  kind : EngineKind;
  enginePath : string;
  createMode : Z;
  fileError : FileError;
  engineErrorString : string
}.

(** [QAbstractFileEngine::setError] of qabstractfileengine.cpp. *)
Definition engine_setError (e : FileError) (msg : string) (fe : FileEngine)
  : FileEngine :=
  mkFileEngine (kind fe) (enginePath fe) (createMode fe) e msg.

Definition set_enginePath (p : string) (fe : FileEngine) : FileEngine :=
  mkFileEngine (kind fe) p (createMode fe) (fileError fe) (engineErrorString fe).

(** Modelled from the spec: [QFileSystemEngine::createLegacyEngine];
    qfilesystemengine.cpp is missing.  It stands for the "handler registry
    for pluggable file engines" of section 9: the engine of the handler or
    built-in engine that knows the name, and no engine when there is none.
    A new engine reports [UnspecifiedError]. *)
Definition createLegacyEngine (w : World) (name : string) : option FileEngine :=
  if legacyEngine w name
  then Some (mkFileEngine LegacyEngine name 438 UnspecifiedError EmptyString)
  else None.

(** [QAbstractFileEngine::create] of qabstractfileengine.cpp: the legacy
    engine for the name, and if there is none the regular file engine,
    which creates files with mode 0666. *)
Definition QAbstractFileEngine_create (w : World) (name : string) : FileEngine :=
  match createLegacyEngine w name with
  | Some engine => engine
  | None => mkFileEngine FSFileEngine name 438 UnspecifiedError EmptyString
  end.

(** [new QTemporaryFileEngine(&finalFileName, ...)] followed by
    [initialize(finalFileName, perm)]. *)
Definition QTemporaryFileEngine_initialize (templ : string) (perm : Z)
  : FileEngine :=
  mkFileEngine TemporaryFileEngine templ perm UnspecifiedError EmptyString.

Definition engine_fail (f : Fault) (fe : FileEngine) (w : World)
  : bool * FileEngine * World :=
  (false, engine_setError (f_error f) (f_message f) fe, set_errno (f_errno f) w).

(** Modelled from the spec: [open] of the engines behind [createEngine]
    (section 6); qfsfileengine.cpp and qtemporaryfile.cpp are missing.  A
    temporary file engine creates a new file next to its template
    (section 4.3) and never opens an existing one; the mode it was
    initialized with is cut down by the umask.  The regular engine opened
    for writing creates the file or empties it, looking through symbolic
    links; the engine of a handler does the same to what its name stands
    for, the specification knowing one [createEngine(path)]. *)
Definition engine_open (fe : FileEngine) (mode : Z) (w : World)
  : bool * FileEngine * World :=
  match kind fe with
  | TemporaryFileEngine =>
      let name := enginePath fe +:+ "." +:+ tmpSuffix w in
      match openFault w name with
      | Some f => engine_fail f fe w
      | None =>
          match files w !! name with
          | Some _ => engine_fail (mkFault OpenError "File exists" EEXIST) fe w
          | None =>
              (true, set_enginePath name fe,
               set_files (<[name := File (Z.ldiff (createMode fe) (umask w)) []]>
                            (files w)) w)
          end
      end
  | FSFileEngine | LegacyEngine =>
      match openFault w (enginePath fe) with
      | Some f => engine_fail f fe w
      | None =>
          match walk SYMLOOP_MAX (files w) (enginePath fe) with
          | Some (q, None) =>
              (true, set_enginePath q fe,
               set_files (<[q := File (Z.ldiff (createMode fe) (umask w)) []]>
                            (files w)) w)
          | Some (q, Some (File pm _)) =>
              (true, set_enginePath q fe,
               set_files (<[q := File pm []]> (files w)) w)
          | Some (_, Some (Dir _)) =>
              engine_fail (mkFault OpenError "Is a directory" EISDIR) fe w
          | _ =>
              engine_fail
                (mkFault OpenError "Too many levels of symbolic links" ELOOP) fe w
          end
      end
  end.

Definition append_data (extra : list byte) (n : Node) : Node :=
  match n with
  | File pm d => File pm (d ++ extra)
  | other => other
  end.

(** Modelled from the spec: [write] of the missing engines.  One write
    takes the head of [writeFaults]: a fault there makes the write return
    -1 with the engine's error set, otherwise the bytes are added to the
    file and their number is returned. *)
Definition engine_write (fe : FileEngine) (data : list byte) (w : World)
  : Z * FileEngine * World :=
  match writeFaults w with
  | Some f :: rest =>
      (-1, engine_setError (f_error f) (f_message f) fe,
       set_errno (f_errno f) (set_writeFaults rest w))
  | _ =>
      (Z.of_nat (length data), fe,
       set_files (alter (append_data data) (enginePath fe) (files w))
                 (set_writeFaults (tail (writeFaults w)) w))
  end.

(** Modelled from the spec: [remove] of the missing engines, "delete the
    staging file" (section 4.6): the file of the engine is gone
    afterwards.  The save file never looks at the result. *)
Definition engine_remove (fe : FileEngine) (w : World) : World :=
  set_files (delete (enginePath fe) (files w)) w.

(** Modelled from the spec: [syncToDisk] of the missing engines, "a
    best-effort sync-to-disk ... errors ignored" (section 4.6).  What has
    reached the disk is no part of this world: the call leaves it as it
    is. *)
Definition engine_syncToDisk (fe : FileEngine) (w : World) : bool * World :=
  (true, w).

(** Modelled from the spec: [renameOverwrite] of the missing engines,
    "replace-or-fail" (section 9).  On success the entry under [newName]
    is the engine's file and the old name is gone; on failure nothing
    moves. *)
Definition engine_renameOverwrite (fe : FileEngine) (newName : string) (w : World)
  : bool * FileEngine * World :=
  match renameFault w with
  | Some f => engine_fail f fe w
  | None =>
      match files w !! enginePath fe, files w !! newName with
      | None, _ => engine_fail (mkFault RenameError "No such file" ENOENT) fe w
      | Some _, Some (Dir _) =>
          engine_fail (mkFault RenameError "Is a directory" EISDIR) fe w
      | Some n, _ =>
          (true, set_enginePath newName fe,
           set_files (<[newName := n]> (delete (enginePath fe) (files w))) w)
      end
  end.

Definition with_perms (pm : Z) (n : Node) : Node :=
  match n with
  | File _ d => File pm d
  | Dir _ => Dir pm
  | other => other
  end.

(** Modelled from the spec: [setPermissions] of the missing engines. *)
Definition engine_setPermissions (fe : FileEngine) (pm : Z) (w : World)
  : bool * FileEngine * World :=
  match files w !! enginePath fe with
  | Some _ =>
      (true, fe, set_files (alter (with_perms pm) (enginePath fe) (files w)) w)
  | None => engine_fail (mkFault PermissionsError "No such file" ENOENT) fe w
  end.

(** ** The save file object *)

(** The private data of a [QSaveFile]: [openMode] of the I/O device,
    [fileEngine], [error] and [errorString] of the file device, and the
    fields [QSaveFilePrivate] adds. *)
Record QSaveFile := mkQSaveFile {
  openMode : Z;
  fileEngine : option FileEngine;
  error : FileError;
  errorString : string;
  fileName : string;
  finalFileName : string;
  writeError : FileError;
  useTemporaryFile : bool;
  directWriteFallback : bool
}.

Definition set_openMode (m : Z) (s : QSaveFile) : QSaveFile :=
  mkQSaveFile m (fileEngine s) (error s) (errorString s) (fileName s)
              (finalFileName s) (writeError s) (useTemporaryFile s)
              (directWriteFallback s).
Definition set_fileEngine (fe : option FileEngine) (s : QSaveFile) : QSaveFile :=
  mkQSaveFile (openMode s) fe (error s) (errorString s) (fileName s)
              (finalFileName s) (writeError s) (useTemporaryFile s)
              (directWriteFallback s).
Definition setError (e : FileError) (msg : string) (s : QSaveFile) : QSaveFile :=
  mkQSaveFile (openMode s) (fileEngine s) e msg (fileName s)
              (finalFileName s) (writeError s) (useTemporaryFile s)
              (directWriteFallback s).
Definition setFileName (name : string) (s : QSaveFile) : QSaveFile :=
  mkQSaveFile (openMode s) (fileEngine s) (error s) (errorString s) name
              (finalFileName s) (writeError s) (useTemporaryFile s)
              (directWriteFallback s).
Definition set_finalFileName (name : string) (s : QSaveFile) : QSaveFile :=
  mkQSaveFile (openMode s) (fileEngine s) (error s) (errorString s) (fileName s)
              name (writeError s) (useTemporaryFile s) (directWriteFallback s).
Definition set_writeError (e : FileError) (s : QSaveFile) : QSaveFile :=
  mkQSaveFile (openMode s) (fileEngine s) (error s) (errorString s) (fileName s)
              (finalFileName s) e (useTemporaryFile s) (directWriteFallback s).
Definition set_useTemporaryFile (b : bool) (s : QSaveFile) : QSaveFile :=
  mkQSaveFile (openMode s) (fileEngine s) (error s) (errorString s) (fileName s)
              (finalFileName s) (writeError s) b (directWriteFallback s).
Definition setDirectWriteFallback (enabled : bool) (s : QSaveFile) : QSaveFile :=
  mkQSaveFile (openMode s) (fileEngine s) (error s) (errorString s) (fileName s)
              (finalFileName s) (writeError s) (useTemporaryFile s) enabled.

(** The constructor taking a name: [QSaveFilePrivate::QSaveFilePrivate]
    and [d->fileName = name]. *)
Definition new_QSaveFile (name : string) : QSaveFile :=
  mkQSaveFile OpenMode.NotOpen None NoError EmptyString name EmptyString NoError
              true false.

Definition isOpen (s : QSaveFile) : bool :=
  negb (openMode s =? OpenMode.NotOpen)%Z.

Definition unsetError (s : QSaveFile) : QSaveFile := setError NoError EmptyString s.

(** ** The device layer under the save file *)

(** Modelled from the spec: [QIODevice::open], the base class call
    spelled [QFileDevice::open(mode)] in [open]; qiodevice.cpp is missing.
    It records the mode, which makes the device open. *)
Definition QFileDevice_open (mode : Z) (s : QSaveFile) : QSaveFile :=
  set_openMode mode s.

(** Modelled from the spec: [QFileDevice::close]; qfiledevice.cpp is
    missing.  It "flushes any buffered data" and closes the handle
    (section 4.6).  Buffering belongs to the excluded device layer: here
    the bytes of a write reach the engine at once, so that nothing is left
    to flush.  The device is not open afterwards and its error is cleared;
    nothing happens on a device that is not open. *)
Definition QFileDevice_close (s : QSaveFile) : QSaveFile :=
  if isOpen s then unsetError (set_openMode OpenMode.NotOpen s) else s.

(** Modelled from the spec: [QFileDevice::writeData]; qfiledevice.cpp is
    missing.  Section 4.4: "delegate to the underlying staging-file write;
    if that underlying write reports any error", the device takes over the
    engine's error, [WriteError] standing in for an unspecified one, and
    the failure is handed to the caller.  The device error is cleared
    before the engine is called. *)
Definition QFileDevice_writeData (data : list byte) (s : QSaveFile) (w : World)
  : Z * QSaveFile * World :=
  let s := unsetError s in
  match fileEngine s with
  | None => (-1, s, w)
  | Some fe =>
      let '(ret, fe, w) := engine_write fe data w in
      let s := set_fileEngine (Some fe) s in
      if (ret <? 0)%Z then
        let err := fileError fe in
        let err := if decide (err = UnspecifiedError) then WriteError else err in
        (ret, setError err (engineErrorString fe) s, w)
      else (ret, s, w)
  end.

(** Modelled from the spec: [QFileDevice::setPermissions]; qfiledevice.cpp
    is missing.  Section 4.3, "copy those permission bits onto the staging
    file": the engine sets them, and the device error is cleared on
    success and [PermissionsError] otherwise. *)
Definition setPermissions (pm : Z) (s : QSaveFile) (w : World)
  : bool * QSaveFile * World :=
  match fileEngine s with
  | None => (false, s, w)
  | Some fe =>
      let '(ok, fe, w) := engine_setPermissions fe pm w in
      let s := set_fileEngine (Some fe) s in
      if ok then (true, unsetError s, w)
      else (false, setError PermissionsError (engineErrorString fe) s, w)
  end.

(** [QDir::toNativeSeparators]: backslashes on Windows, the name as it is
    elsewhere. *)
Fixpoint backslashes (p : string) : string :=
  match p with
  | EmptyString => EmptyString
  | String c r =>
      String (if Ascii.eqb c "/"%char then "\"%char else c) (backslashes r)
  end.

Definition toNativeSeparators (o : OS) (p : string) : string :=
  if Q_OS_WIN o then backslashes p else p.

(** [QString::indexOf(ch, from)]: -1 when [ch] does not occur from
    position [from] on. *)
Definition indexOf (ch : string) (from : nat) (str : string) : Z :=
  match String.index from ch str with
  | Some i => Z.of_nat i
  | None => -1
  end.

(** ** The methods of qsavefile.cpp *)

Definition perm_0600 : Z := 6 * 64.
Definition perm_0666 : Z := 6 * 64 + 6 * 8 + 6.

Definition engineError (s : QSaveFile) : FileError :=
  match fileEngine s with Some fe => fileError fe | None => UnspecifiedError end.

Definition engineErrorStringOf (s : QSaveFile) : string :=
  match fileEngine s with Some fe => engineErrorString fe | None => EmptyString end.

(** The loop of [open],
    [while (--maxDepth && existingFile.isSymLink())
         existingFile.setFile(existingFile.symLinkTarget());]
    returning the counter and the file info it ends with.  The counter is
    decremented before it is tested, and [isSymLink] is not asked once it
    is zero.  It starts at 128 and never goes below zero. *)
Fixpoint followSymLinks (w : World) (maxDepth : nat) (existingFile : QFileInfo)
  : nat * QFileInfo :=
  match maxDepth with
  | O => (O, existingFile)
  | S n =>
      match n with
      | O => (O, existingFile)
      | S _ =>
          if isSymLink w existingFile
          then followSymLinks w n (setFile (symLinkTarget w existingFile) existingFile)
          else (n, existingFile)
      end
  end.

(** "Resolve symlinks" in [open]: the file info the rest of [open] goes
    on with, and the value [d->finalFileName] is left with. *)
Definition resolveSymLinks (w : World) (existingFile : QFileInfo) (name : string)
  : QFileInfo * string :=
  let finalFileName := name in
  if isSymLink w existingFile then
    let '(maxDepth, existingFile) := followSymLinks w 128 existingFile in
    if (0 <? maxDepth)%nat
    then (existingFile, filePath existingFile)
    else (existingFile, finalFileName)
  else (existingFile, finalFileName).

(** The lambda [openDirectly] of [open]. *)
Definition openDirectly (mode : Z) (s : QSaveFile) (w : World)
  : bool * QSaveFile * World :=
  let fe := QAbstractFileEngine_create w (finalFileName s) in
  let '(ok, fe, w) := engine_open fe (Z.lor mode OpenMode.Unbuffered) w in
  let s := set_fileEngine (Some fe) s in
  if ok then (true, QFileDevice_open mode (set_useTemporaryFile false s), w)
  else (false, s, w).

(** The platform test before the staging file is made: an alternate data
    stream on Windows, a content URL on Android. *)
Definition requiresDirectWrite (o : OS) (s : QSaveFile) : bool :=
  if Q_OS_WIN o then
    String.eqb (finalFileName s) (fileName s)
    && (1 <? indexOf ":" 2 (fileName s))%Z
  else if Q_OS_ANDROID o then String.prefix "content://" (fileName s)
  else false.

(** The branch [if (requiresDirectWrite)] of [open]. *)
Definition openWithoutRename (mode : Z) (s : QSaveFile) (w : World)
  : bool * QSaveFile * World :=
  if directWriteFallback s then
    let '(ok, s, w) := openDirectly mode s w in
    if ok then (true, s, w)
    else (false,
          set_fileEngine None (setError (engineError s) (engineErrorStringOf s) s),
          w)
  else
    let msg := "QSaveFile cannot open '"
               +:+ toNativeSeparators (host w) (fileName s)
               +:+ "' without direct write fallback enabled." in
    (false, setError OpenError msg s, w).

(** The rest of [open], from the creation of the temporary file engine. *)
Definition openStaging (mode : Z) (existingFile : QFileInfo) (s : QSaveFile)
  (w : World) : bool * QSaveFile * World :=
  let perm := if exists_ w existingFile then perm_0600 else perm_0666 in
  let fe := QTemporaryFileEngine_initialize (finalFileName s) perm in
  let '(ok, fe, w) := engine_open fe (Z.lor mode OpenMode.Unbuffered) w in
  let s := set_fileEngine (Some fe) s in
  if negb ok then
    let err := fileError fe in
    let '(opened, err, s, w) :=
      if Q_OS_UNIX (host w) && directWriteFallback s
         && bool_decide (err = OpenError) && (errno w =? EACCES)%Z
      then
        let '(ok, s, w) := openDirectly mode s w in
        (ok, engineError s, s, w)
      else (false, err, s, w) in
    if opened then (true, s, w)
    else
      let err := if decide (err = UnspecifiedError) then OpenError else err in
      (false, set_fileEngine None (setError err (engineErrorStringOf s) s), w)
  else
    let s := set_useTemporaryFile true s in
    let s := QFileDevice_open mode s in
    if exists_ w existingFile then
      let '(_, s, w) := setPermissions (permissions w existingFile) s w in
      (true, s, w)
    else (true, s, w).

(** [QSaveFile::open]. *)
Definition open (mode : Z) (s : QSaveFile) (w : World)
  : bool * QSaveFile * World :=
  if isOpen s then (false, s, qWarning (WarnAlreadyOpen (fileName s)) w)
  else
    let s := unsetError s in
    let s := set_writeError NoError s in
    if (Z.land mode (Z.lor OpenMode.ReadOnly OpenMode.WriteOnly) =? 0)%Z then
      (false, s, qWarning WarnModeNotSpecified w)
    else if negb (Z.land mode
                    (Z.lor OpenMode.ReadOnly
                       (Z.lor OpenMode.Append
                          (Z.lor OpenMode.NewOnly OpenMode.ExistingOnly))) =? 0)%Z
    then (false, s, qWarning (WarnUnsupportedMode mode) w)
    else
      let existingFile := mkQFileInfo (fileName s) in
      if exists_ w existingFile && negb (isWritable w existingFile) then
        (false,
         set_writeError WriteError
           (setError WriteError
              ("Existing file " +:+ fileName s +:+ " is not writable") s),
         w)
      else if isDir w existingFile then
        (false,
         set_writeError WriteError
           (setError WriteError "Filename refers to a directory" s),
         w)
      else
        let '(existingFile, final) := resolveSymLinks w existingFile (fileName s) in
        let s := set_finalFileName final s in
        if requiresDirectWrite (host w) s then openWithoutRename mode s w
        else openStaging mode existingFile s w.

(** What a call can end in: a return, or the end of the program in
    [qFatal]. *)
Inductive Outcome (A : Type) :=
  | Returned (a : A)
  | Fatal (msg : string).
Arguments Returned {A} a.
Arguments Fatal {A} msg.

(** [QSaveFile::close]. *)
Definition close (s : QSaveFile) (w : World) : Outcome (QSaveFile * World) :=
  Fatal "QSaveFile::close called".

(** [QSaveFile::commit]. *)
Definition commit (s : QSaveFile) (w : World) : bool * QSaveFile * World :=
  match fileEngine s with
  | None => (false, s, w)
  | Some fe =>
      if negb (isOpen s) then (false, s, qWarning (WarnNotOpen (fileName s)) w)
      else
        let s := QFileDevice_close s in
        let s := set_fileEngine None s in
        let '(_, w) := engine_syncToDisk fe w in
        if useTemporaryFile s then
          if negb (bool_decide (writeError s = NoError)) then
            let w := engine_remove fe w in
            (false, set_writeError NoError s, w)
          else
            let '(ok, fe, w) := engine_renameOverwrite fe (finalFileName s) w in
            if negb ok then
              (false, setError (fileError fe) (engineErrorString fe) s,
               engine_remove fe w)
            else (true, s, w)
        else (true, s, w)
  end.

(** What [commit] makes of the object before it looks at the mode: the
    device closed, the engine moved out. *)
Definition afterClose (s : QSaveFile) : QSaveFile :=
  set_fileEngine None (QFileDevice_close s).

(** [QSaveFile::cancelWriting]. *)
Definition cancelWriting (s : QSaveFile) : QSaveFile :=
  if negb (isOpen s) then s
  else
    set_writeError WriteError
      (setError WriteError "Writing canceled by application" s).

(** [QSaveFile::writeData]. *)
Definition writeData (data : list byte) (s : QSaveFile) (w : World)
  : Z * QSaveFile * World :=
  if negb (bool_decide (writeError s = NoError)) then (-1, s, w)
  else
    let '(ret, s, w) := QFileDevice_writeData data s w in
    if negb (bool_decide (error s = NoError))
    then (ret, set_writeError (error s) s, w)
    else (ret, s, w).

(** [QSaveFile::~QSaveFile]: what is left of the world once the object is
    gone. *)
Definition destroy (s : QSaveFile) (w : World) : World :=
  let s := QFileDevice_close s in
  match fileEngine s with
  | Some fe => engine_remove fe w
  | None => w
  end.

(** ** Sessions as sequences of calls *)

(** Modelled from the spec: [QIODevice::write], the caller's entry to
    [writeData]; qiodevice.cpp is missing.  Section 6,
    [write(data, length) -> bytesWritten | -1]: a device that is not open
    for writing takes no bytes. *)
Definition write (data : list byte) (s : QSaveFile) (w : World)
  : Z * QSaveFile * World :=
  if (Z.land (openMode s) OpenMode.WriteOnly =? 0)%Z then (-1, s, w)
  else writeData data s w.

(** The calls an application can make on a save file. *)
Inductive Op :=
  | OpOpen (mode : Z)
  | OpWrite (data : list byte)
  | OpCancelWriting
  | OpCommit
  | OpClose
  | OpSetFileName (name : string)
  | OpSetDirectWriteFallback (enabled : bool).

Definition step (op : Op) (s : QSaveFile) (w : World)
  : Outcome (QSaveFile * World) :=
  match op with
  | OpOpen mode => let '(_, s, w) := open mode s w in Returned (s, w)
  | OpWrite data => let '(_, s, w) := write data s w in Returned (s, w)
  | OpCancelWriting => Returned (cancelWriting s, w)
  | OpCommit => let '(_, s, w) := commit s w in Returned (s, w)
  | OpClose => close s w
  | OpSetFileName name => Returned (setFileName name s, w)
  | OpSetDirectWriteFallback enabled =>
      Returned (setDirectWriteFallback enabled s, w)
  end.

Fixpoint run (ops : list Op) (s : QSaveFile) (w : World)
  : Outcome (QSaveFile * World) :=
  match ops with
  | [] => Returned (s, w)
  | op :: rest =>
      match step op s w with
      | Returned (s, w) => run rest s w
      | Fatal msg => Fatal msg
      end
  end.

(** ** Sample worlds *)

Definition no_fault : string -> option Fault := fun _ => None.

(** No handler and no built-in engine for any name. *)
Definition no_legacy : string -> bool := fun _ => false.

Definition world_of (o : OS) (m : gmap string Node) : World :=
  mkWorld m o 18 0 "aB3xYz" no_fault [] None [] no_legacy.

Definition hello : list byte := [x68; x65; x6c; x6c; x6f].

(** ** Open sessions *)

(** The calls that leave a session going: everything but [commit], which
    ends it, and [close], which ends the program. *)
Definition keepsGoing (op : Op) : bool :=
  match op with
  | OpCommit | OpClose => false
  | _ => true
  end.

(** The states of an open session: what a successful [open] returns, and
    what any further call that leaves the session going makes of it. *)
Inductive Session : QSaveFile -> World -> Prop :=
  | Session_opened mode s0 w0 s w :
      open mode s0 w0 = (true, s, w) -> Session s w
  | Session_step op s w s' w' :
      Session s w -> keepsGoing op = true ->
      step op s w = Returned (s', w') -> Session s' w'.

(** What every session state satisfies: the device is open, the engine is
    there, and in staging mode the engine's file is not the destination. *)
Definition SessionInv (s : QSaveFile) (w : World) : Prop :=
  isOpen s = true /\
  exists fe, fileEngine s = Some fe /\
    (useTemporaryFile s = true -> enginePath fe <> finalFileName s).

(** The staging file of a session is there with permission bits [pm]. *)
Definition StagedWith (pm : Z) (s : QSaveFile) (w : World) : Prop :=
  exists fe d, fileEngine s = Some fe /\
    files w !! enginePath fe = Some (File pm d).


(** The flags [open] turns down. *)
Definition unsupportedFlags : Z :=
  Z.lor OpenMode.ReadOnly
    (Z.lor OpenMode.Append (Z.lor OpenMode.NewOnly OpenMode.ExistingOnly)).


(** What such a call may change: the error state, the latch, the name,
    the fallback switch, and the bytes of the engine's own file. *)
Definition Frame (s : QSaveFile) (w : World) (s' : QSaveFile) (w' : World) : Prop :=
  openMode s' = openMode s /\
  useTemporaryFile s' = useTemporaryFile s /\
  finalFileName s' = finalFileName s /\
  match fileEngine s with
  | None => fileEngine s' = None /\ files w' = files w
  | Some fe =>
      (exists fe', fileEngine s' = Some fe' /\ enginePath fe' = enginePath fe) /\
      (files w' = files w \/
       exists data,
         files w' = alter (append_data data) (enginePath fe) (files w))
  end.


(** ** Sample sessions *)

Definition ENOSPC : Z := 28.

(** One existing document with mode 0644. *)
Definition docWorld : World :=
  world_of Unix {[ "/tmp/doc.txt" := File 420 [x61] ]}.

(** The same document where the replacement at [commit] is refused. *)
Definition noRenameWorld : World :=
  mkWorld {[ "/tmp/doc.txt" := File 420 [x61] ]} Unix 18 0 "aB3xYz" no_fault []
          (Some (mkFault RenameError "Permission denied" EACCES)) [] no_legacy.

(** The same document on a disk that is full after the first write. *)
Definition fullDiskWorld : World :=
  mkWorld {[ "/tmp/doc.txt" := File 420 [x61] ]} Unix 18 0 "aB3xYz" no_fault
          [None; Some (mkFault ResourceError "No space left on device" ENOSPC)]
          None [] no_legacy.

(** A document in a directory that takes no new file, on a full disk:
    the staging file cannot be made, and the first write fails. *)
Definition roWorld : World :=
  mkWorld {[ "/ro/doc.txt" := File 420 [x61] ]} Unix 18 0 "aB3xYz"
          (fun p => if String.eqb p "/ro/doc.txt.aB3xYz"
                    then Some (mkFault OpenError "Permission denied" EACCES)
                    else None)
          [Some (mkFault ResourceError "No space left on device" ENOSPC)]
          None [] no_legacy.

Definition after (ops : list Op) (s : QSaveFile) (w : World) : QSaveFile * World :=
  match run ops s w with
  | Returned sw => sw
  | Fatal _ => (s, w)
  end.

(** A staging session in which the application has cancelled. *)
Definition cancelledSession : QSaveFile * World :=
  after [OpOpen OpenMode.WriteOnly; OpWrite hello; OpCancelWriting]
        (new_QSaveFile "/tmp/doc.txt") docWorld.

(** A staging session with five bytes written and no error. *)
Definition cleanSession (w : World) : QSaveFile * World :=
  after [OpOpen OpenMode.WriteOnly; OpWrite hello]
        (new_QSaveFile "/tmp/doc.txt") w.

(** A session that fell back to writing the document in place. *)
Definition directSession : QSaveFile * World :=
  after [OpSetDirectWriteFallback true; OpOpen OpenMode.WriteOnly]
        (new_QSaveFile "/ro/doc.txt") roWorld.

(** The same after a write that failed. *)
Definition directLatched : QSaveFile * World :=
  after [OpWrite hello] directSession.1 directSession.2.

(** A directory, and a document nobody may write (mode 0444). *)
Definition dirWorld : World :=
  world_of Unix {[ "/tmp/dir" := Dir 493; "/tmp/locked.txt" := File 292 [x61] ]}.

(** ** Chains of symbolic links *)

(** [follow w k p] is the path reached from [p] over [k] links, when [p]
    and the paths after it are that many links in a row. *)
Fixpoint follow (w : World) (k : nat) (p : string) : option string :=
  match k with
  | O => Some p
  | S k =>
      if isSymLink w (mkQFileInfo p)
      then follow w k (symLinkTarget w (mkQFileInfo p))
      else None
  end.

(** A chain of [n] links from [p] to a regular file. *)
Fixpoint linkChain (n : nat) (p : string) : gmap string Node :=
  match n with
  | O => {[ p := File 420 [] ]}
  | S n => <[ p := Link (p +:+ "x") ]> (linkChain n (p +:+ "x"))
  end.

Definition chainWorld (n : nat) : World := world_of Unix (linkChain n "/l").

(** A link to a path with nothing under it. *)
Definition danglingWorld : World :=
  world_of Unix {[ "/tmp/link" := Link "/tmp/nowhere" ]}.

(** ** More sample worlds *)

(** The document in a directory that takes no new file, with nothing
    else wrong. *)
Definition deniedWorld : World :=
  mkWorld {[ "/ro/doc.txt" := File 420 [x61] ]} Unix 18 0 "aB3xYz"
          (fun p => if String.eqb p "/ro/doc.txt.aB3xYz"
                    then Some (mkFault OpenError "Permission denied" EACCES)
                    else None)
          [] None [] no_legacy.

(** Android, where a handler makes the engines for content URLs. *)
Definition androidWorld : World :=
  mkWorld ∅ Android 18 0 "aB3xYz" no_fault [] None []
          (String.prefix "content:").

(** A document only its owner and group may read (mode 0640). *)
Definition privateDocWorld : World :=
  world_of Unix {[ "/tmp/doc.txt" := File 416 [x61] ]}.

(** The path [n] links after [p] in a chain made by [linkChain]. *)
Fixpoint chainEnd (n : nat) (p : string) : string :=
  match n with
  | O => p
  | S n => chainEnd n (p +:+ "x")
  end.

(** A chain of 127 links from "/l" to a program (mode 0755). *)
Definition longChainWorld : World :=
  world_of Unix (<[chainEnd 127 "/l" := File 493 []]> (linkChain 127 "/l")).

(** ** The rest of qabstractfileengine.cpp *)

(** [QString::endsWith(u'/')]. *)
Fixpoint endsWithSlash (str : string) : bool :=
  match str with
  | EmptyString => false
  | String c EmptyString => Ascii.eqb c "/"%char
  | String _ rest => endsWithSlash rest
  end.

(** The static function [appendSlashIfNeeded]; the test for a content
    URL is compiled in on Android only. *)
Definition appendSlashIfNeeded (o : OS) (path : string) : string :=
  if negb (String.eqb path EmptyString) && negb (endsWithSlash path)
     && (if Q_OS_ANDROID o then negb (String.prefix "content:/" path) else true)
  then path +:+ "/"
  else path.

(** The members of a [QAbstractFileEngineIterator] that the functions
    below read. *)
Record QAbstractFileEngineIterator := mkIterator {
  m_filters : Z;
  m_nameFilters : list string;
  m_path : string
}.

(** The constructor of [QAbstractFileEngineIterator]. *)
Definition new_Iterator (o : OS) (path : string) (filters : Z)
  (nameFilters : list string) : QAbstractFileEngineIterator :=
  mkIterator filters nameFilters (appendSlashIfNeeded o path).

(** [QAbstractFileEngineIterator::path]. *)
Definition path (it : QAbstractFileEngineIterator) : string := m_path it.

(** [QAbstractFileEngineIterator::currentFilePath].  The name of the
    current entry comes from the pure virtual [currentFileName]; a null
    [QString] is [None]. *)
Definition currentFilePath (it : QAbstractFileEngineIterator)
  (currentFileName : option string) : option string :=
  match currentFileName with
  | None => None
  | Some name => Some (path it +:+ name)
  end.

(** The global state of the handler registry: the list of the handlers,
    which are known by their addresses, the flag that says that some are
    in use, and the flag the destructor of the list sets. *)
Record HandlerState := mkHandlerState {
  fileEngineHandlers : list nat;
  qt_file_engine_handlers_in_use : bool;
  qt_abstractfileenginehandlerlist_shutDown : bool
}.

(** The state at program start. *)
Definition noHandlers : HandlerState := mkHandlerState [] false false.

(** [QList::removeOne]: the first element equal to [x] goes. *)
Fixpoint removeOne (x : nat) (l : list nat) : list nat :=
  match l with
  | [] => []
  | y :: rest => if Nat.eqb x y then rest else y :: removeOne x rest
  end.

(** The constructor of [QAbstractFileEngineHandler], for the handler at
    address [this]. *)
Definition registerHandler (this : nat) (g : HandlerState) : HandlerState :=
  mkHandlerState (this :: fileEngineHandlers g) true
                 (qt_abstractfileenginehandlerlist_shutDown g).

(** The destructor of [QAbstractFileEngineHandler]. *)
Definition unregisterHandler (this : nat) (g : HandlerState) : HandlerState :=
  if negb (qt_abstractfileenginehandlerlist_shutDown g) then
    let handlers := removeOne this (fileEngineHandlers g) in
    mkHandlerState handlers
      (match handlers with
       | [] => false
       | _ => qt_file_engine_handlers_in_use g
       end)
      (qt_abstractfileenginehandlerlist_shutDown g)
  else g.

(** The destructor of [QAbstractFileEngineHandlerList]. *)
Definition shutDownHandlers (g : HandlerState) : HandlerState :=
  mkHandlerState (fileEngineHandlers g) (qt_file_engine_handlers_in_use g) true.

(** What a program can do to the registry: construct the handler at an
    address, or destruct it. *)
Inductive HandlerOp :=
  | Construct (this : nat)
  | Destruct (this : nat).

Definition handlerStep (op : HandlerOp) (g : HandlerState) : HandlerState :=
  match op with
  | Construct this => registerHandler this g
  | Destruct this => unregisterHandler this g
  end.

Definition handlerRun (ops : list HandlerOp) (g : HandlerState) : HandlerState :=
  foldl (fun g op => handlerStep op g) g ops.

Section CustomEngines.
Variable Engine : Type.
(** The virtual [create] of the handler at an address; [None] is the
    null pointer of a handler that does not know the path. *)
Variable create : nat -> string -> option Engine.

(** The loop of [qt_custom_file_engine_handler_create]. *)
Fixpoint firstEngine (handlers : list nat) (p : string) : option Engine :=
  match handlers with
  | [] => None
  | handler :: rest =>
      match create handler p with
      | Some engine => Some engine
      | None => firstEngine rest p
      end
  end.

(** [qt_custom_file_engine_handler_create]. *)
Definition qt_custom_file_engine_handler_create (g : HandlerState) (p : string)
  : option Engine :=
  if qt_file_engine_handlers_in_use g
  then firstEngine (fileEngineHandlers g) p
  else None.
End CustomEngines.
Arguments firstEngine {Engine} create handlers p.
Arguments qt_custom_file_engine_handler_create {Engine} create g p.

Section ReadLine.
Variable Device : Type.
(** The virtual [read(&c, 1)] of the engine: its result, the character it
    stored, and the engine afterwards. *)
Variable read : Device -> Z * byte * Device.

(** The loop of [QAbstractFileEngine::readLine], with the bytes stored
    through [data] so far.  [remaining] is [maxlen - readSoFar]: the loop
    goes on while it is positive, and every round that goes on adds one
    to [readSoFar]. *)
Fixpoint readLineLoop (remaining : nat) (dev : Device) (readSoFar : Z)
  (data : list byte) : Z * list byte * Device :=
  match remaining with
  | O => (readSoFar, data, dev)
  | S n =>
      let '(readResult, c, dev) := read dev in
      if (readResult <=? 0)%Z
      then ((if (0 <? readSoFar)%Z then readSoFar else -1), data, dev)
      else
        let readSoFar := readSoFar + 1 in
        let data := (data ++ [c])%list in
        if Byte.eqb c x0a then (readSoFar, data, dev)
        else readLineLoop n dev readSoFar data
  end.

(** [QAbstractFileEngine::readLine]. *)
Definition readLine (dev : Device) (maxlen : Z) : Z * list byte * Device :=
  readLineLoop (Z.to_nat maxlen) dev 0 [].
End ReadLine.
Arguments readLineLoop {Device} read remaining dev readSoFar data.
Arguments readLine {Device} read dev maxlen.

(** An engine that hands out the bytes of a buffer one after the other
    and reports the end of the file with 0. *)
Definition bufferRead (buf : list byte) : Z * byte * list byte :=
  match buf with
  | [] => (0, x00, [])
  | c :: rest => (1, c, rest)
  end.

(** [QAbstractFileEngine::read], the default: no engine, no bytes. *)
Definition defaultRead (dev : unit) : Z * byte * unit := (-1, x00, dev).

(** The first line of a buffer: the bytes up to and with the first new
    line, all of them when there is none. *)
Fixpoint firstLine (l : list byte) : list byte :=
  match l with
  | [] => []
  | c :: rest => if Byte.eqb c x0a then [c] else c :: firstLine rest
  end.

(** ** A staging file over the files that were there *)

(** The engine's file holds [d] with permission bits [pm], it is new
    with respect to [m], and the other files are those of [m]. *)
Definition StagingOver (m : gmap string Node) (pm : Z) (d : list byte)
  (s : QSaveFile) (w : World) : Prop :=
  exists fe, fileEngine s = Some fe /\ m !! enginePath fe = None /\
    files w = <[enginePath fe := File pm d]> m.

(** The object [open] has at the point where it tests for a direct
    write: errors cleared, the destination resolved. *)
Definition resolved (s : QSaveFile) (w : World) : QSaveFile :=
  set_finalFileName
    (resolveSymLinks w (mkQFileInfo (fileName s)) (fileName s)).2
    (set_writeError NoError (unsetError s)).

(** The permission bits a staging file is left with by [open]. *)
Definition stagingPerms (s : QSaveFile) (w : World) : Z :=
  let existingFile :=
    (resolveSymLinks w (mkQFileInfo (fileName s)) (fileName s)).1 in
  if exists_ w existingFile then permissions w existingFile
  else Z.ldiff perm_0666 (umask w).

(** A list without handlers. *)
Definition isEmpty (handlers : list nat) : bool :=
  match handlers with [] => true | _ => false end.

(** A buffer at its end. *)
Definition isEmptyBuffer (buf : list byte) : bool :=
  match buf with [] => true | _ => false end.

(** * Properties *)

#[local] Arguments Z.land : simpl never.
#[local] Arguments Z.lor : simpl never.
#[local] Arguments Z.ldiff : simpl never.
#[local] Arguments Z.eqb : simpl never.
#[local] Arguments followSymLinks : simpl never.

Create HintDb savefile.

(** ** Names *)

Lemma append_ne_self (s x : string) : x <> EmptyString -> s +:+ x <> s.
Proof.
  intros Hx. induction s as [|c s IH]; simpl.
  - exact Hx.
  - intros H. injection H as H. exact (IH H).
Qed.

Lemma staging_name_ne (final sfx : string) : final +:+ "." +:+ sfx <> final.
Proof. apply append_ne_self. discriminate. Qed.


(** ** The engines *)

Lemma engine_fail_inv f fe w ok fe' w' :
  engine_fail f fe w = (ok, fe', w') ->
  ok = false /\ enginePath fe' = enginePath fe /\ kind fe' = kind fe /\
  fileError fe' = f_error f /\ engineErrorString fe' = f_message f /\
  w' = set_errno (f_errno f) w.
Proof. unfold engine_fail. intros [= <- <- <-]. done. Qed.

Lemma engine_open_temp templ pm mode w ok fe w' :
  engine_open (QTemporaryFileEngine_initialize templ pm) mode w = (ok, fe, w') ->
  let name := templ +:+ "." +:+ tmpSuffix w in
  (ok = true /\ files w !! name = None /\
   fe = mkFileEngine TemporaryFileEngine name pm UnspecifiedError EmptyString /\
   w' = set_files (<[name := File (Z.ldiff pm (umask w)) []]> (files w)) w)
  \/ (ok = false /\ files w' = files w /\ host w' = host w /\ umask w' = umask w).
Proof.
  unfold engine_open; simpl. intros H.
  destruct (openFault w _) as [f|].
  { apply engine_fail_inv in H as (-> & _ & _ & _ & _ & ->). by right. }
  destruct (files w !! _) as [n|] eqn:E.
  { apply engine_fail_inv in H as (-> & _ & _ & _ & _ & ->). by right. }
  injection H as <- <- <-. by left.
Qed.

Lemma engine_open_host fe mode w ok fe' w' :
  engine_open fe mode w = (ok, fe', w') -> host w' = host w.
Proof.
  unfold engine_open. intros H.
  repeat match type of H with
  | context [match ?x with _ => _ end] => destruct x
  end;
  first [ by apply engine_fail_inv in H as (_ & _ & _ & _ & _ & ->)
        | by injection H as <- <- <- ].
Qed.

Lemma renameOverwrite_false fe name w fe1 w1 :
  engine_renameOverwrite fe name w = (false, fe1, w1) ->
  enginePath fe1 = enginePath fe /\ files w1 = files w.
Proof.
  unfold engine_renameOverwrite. intros H.
  repeat match type of H with
  | context [match ?x with _ => _ end] => destruct x
  end;
  try discriminate;
  by apply engine_fail_inv in H as (_ & -> & _ & _ & _ & ->).
Qed.

Lemma renameOverwrite_true fe name w fe1 w1 n :
  files w !! enginePath fe = Some n ->
  engine_renameOverwrite fe name w = (true, fe1, w1) ->
  files w1 = <[name := n]> (delete (enginePath fe) (files w)).
Proof.
  unfold engine_renameOverwrite. intros Hn H. rewrite Hn in H.
  destruct (renameFault w).
  { by apply engine_fail_inv in H as [? _]. }
  destruct (files w !! name) as [[| |]|];
    first [ by apply engine_fail_inv in H as [? _]
          | by injection H as <- <- ].
Qed.

(** ** Path metadata after a file has been created *)

Lemma walk_create (n : nat) (m : gmap string Node) (k : string) pm d (p : string) :
  m !! k = None ->
  match walk n m p with
  | Some (q, Some x) => walk n (<[k := File pm d]> m) p = Some (q, Some x)
  | Some (q, None) =>
      walk n (<[k := File pm d]> m) p
      = Some (q, if decide (q = k) then Some (File pm d) else None)
  | None => walk n (<[k := File pm d]> m) p = None
  end.
Proof.
  intros Hk. revert p. induction n as [|n IH]; intros p.
  - simpl. destruct (decide (p = k)) as [->|Hne].
    + rewrite Hk, lookup_insert_eq. by rewrite decide_True.
    + rewrite lookup_insert_ne by done.
      destruct (m !! p) as [[| |t]|] eqn:E; try done.
      by rewrite decide_False.
  - simpl. destruct (decide (p = k)) as [->|Hne].
    + rewrite Hk, lookup_insert_eq. by rewrite decide_True.
    + rewrite lookup_insert_ne by done.
      destruct (m !! p) as [[| |t]|] eqn:E; try done.
      * apply IH.
      * by rewrite decide_False.
Qed.

Lemma stat_create (w : World) (k : string) pm (p : string) :
  files w !! k = None ->
  let w1 := set_files (<[k := File pm []]> (files w)) w in
  match stat w p with
  | Some x => stat w1 p = Some x
  | None => stat w1 p = None \/ stat w1 p = Some (File pm [])
  end.
Proof.
  intros Hk w1. subst w1. unfold stat, set_files. cbn [files].
  pose proof (walk_create SYMLOOP_MAX (files w) k pm [] p Hk) as H.
  destruct (walk SYMLOOP_MAX (files w) p) as [[q [x|]]|]; rewrite H; auto.
  destruct (decide (q = k)); auto.
Qed.

Lemma stat_file w p pm d :
  files w !! p = Some (File pm d) -> stat w p = Some (File pm d).
Proof. intros H. unfold stat, SYMLOOP_MAX. simpl. by rewrite H. Qed.

(** ** The link loop *)

Lemma followSymLinks_step w n fi :
  followSymLinks w (S (S n)) fi
  = if isSymLink w fi
    then followSymLinks w (S n) (setFile (symLinkTarget w fi) fi)
    else (S n, fi).
Proof. reflexivity. Qed.

Lemma followSymLinks_ends w n k p q :
  follow w k p = Some q -> isSymLink w (mkQFileInfo q) = false ->
  (k + 2 <= n)%nat ->
  followSymLinks w n (mkQFileInfo p) = ((n - 1 - k)%nat, mkQFileInfo q).
Proof.
  revert n p. induction k as [|k IH]; intros n p Hf Hq Hn.
  - injection Hf as ->. destruct n as [|[|n]]; [lia|lia|].
    rewrite followSymLinks_step, Hq. f_equal; lia.
  - simpl in Hf. destruct (isSymLink w (mkQFileInfo p)) eqn:Hp; [|done].
    destruct n as [|[|n]]; [lia|lia|].
    rewrite followSymLinks_step, Hp. unfold setFile.
    rewrite (IH (S n) _ Hf Hq) by lia. f_equal; lia.
Qed.

Lemma followSymLinks_exhausted w k p q :
  follow w k p = Some q ->
  followSymLinks w (S k) (mkQFileInfo p) = (O, mkQFileInfo q).
Proof.
  revert p. induction k as [|k IH]; intros p Hf.
  - by injection Hf as ->.
  - simpl in Hf. destruct (isSymLink w (mkQFileInfo p)) eqn:Hp; [|done].
    rewrite followSymLinks_step, Hp. by apply IH.
Qed.

Lemma follow_cases w n p :
  (exists k q, (k <= n)%nat /\ follow w k p = Some q /\
     isSymLink w (mkQFileInfo q) = false) \/
  (exists q, follow w (S n) p = Some q).
Proof.
  revert p. induction n as [|n IH]; intros p.
  - destruct (isSymLink w (mkQFileInfo p)) eqn:Hp.
    + right. simpl. rewrite Hp. eauto.
    + left. exists O, p. auto.
  - destruct (isSymLink w (mkQFileInfo p)) eqn:Hp.
    + destruct (IH (symLinkTarget w (mkQFileInfo p))) as [(k & q & Hk & Hf & Hq)|[q Hf]].
      * left. exists (S k), q. split; [lia|]. split; [|done].
        simpl. by rewrite Hp.
      * right. exists q. change (follow w (S (S n)) p)
          with (if isSymLink w (mkQFileInfo p)
                then follow w (S n) (symLinkTarget w (mkQFileInfo p)) else None).
        by rewrite Hp.
    + left. exists O, p. split; [lia|]. done.
Qed.

(** ** Open modes *)

Lemma mode_accepted (mode : Z) :
  Z.land mode (Z.lor OpenMode.ReadOnly OpenMode.WriteOnly) <> 0 ->
  Z.land mode unsupportedFlags = 0 ->
  mode <> 0 /\ Z.land mode OpenMode.WriteOnly <> 0.
Proof.
  unfold unsupportedFlags. rewrite !Z.land_lor_distr_r.
  intros H3 H0. apply Z.lor_eq_0_iff in H0 as [H1 _].
  rewrite H1, Z.lor_0_l in H3. split; [|done].
  intros ->. by rewrite Z.land_0_l in H3.
Qed.

Lemma mode_refused (mode : Z) :
  Z.land mode OpenMode.WriteOnly = 0 \/ Z.land mode unsupportedFlags <> 0 ->
  Z.land mode (Z.lor OpenMode.ReadOnly OpenMode.WriteOnly) = 0 \/
  Z.land mode unsupportedFlags <> 0.
Proof.
  intros [H2|H]; [|by right].
  destruct (decide (Z.land mode unsupportedFlags = 0)) as [H0|]; [left|by right].
  unfold unsupportedFlags in H0. rewrite !Z.land_lor_distr_r in *.
  apply Z.lor_eq_0_iff in H0 as [H1 _]. by rewrite H1, H2.
Qed.

(** ** What a successful open leaves behind *)

Lemma openDirectly_inv mode s w ok s' w' :
  openDirectly mode s w = (ok, s', w') ->
  host w' = host w /\ is_Some (fileEngine s') /\
  writeError s' = writeError s /\
  (ok = true -> openMode s' = mode /\ useTemporaryFile s' = false).
Proof.
  unfold openDirectly. intros H.
  destruct (engine_open _ _ w) as [[ok1 fe] w1] eqn:E.
  apply engine_open_host in E.
  destruct ok1; injection H as <- <- <-; simpl;
    repeat split; eauto; discriminate.
Qed.

Lemma setPermissions_file pm s w fe pm0 d :
  fileEngine s = Some fe ->
  files w !! enginePath fe = Some (File pm0 d) ->
  setPermissions pm s w
  = (true, unsetError s, set_files (<[enginePath fe := File pm d]> (files w)) w).
Proof.
  intros Hfe Hf. unfold setPermissions, engine_setPermissions.
  rewrite Hfe, Hf. f_equal; [f_equal|].
  - destruct s; unfold unsetError, setError, set_fileEngine; simpl in *; congruence.
  - f_equal. apply map_eq. intros p. destruct (decide (p = enginePath fe)) as [->|].
    + by rewrite lookup_alter_eq, lookup_insert_eq, Hf.
    + by rewrite lookup_alter_ne, lookup_insert_ne.
Qed.

Lemma openStaging_staged mode info s w s' w' :
  openStaging mode info s w = (true, s', w') ->
  useTemporaryFile s' = true ->
  let tmp := finalFileName s +:+ "." +:+ tmpSuffix w in
  files w !! tmp = None /\
  fileEngine s'
  = Some (mkFileEngine TemporaryFileEngine tmp
            (if exists_ w info then perm_0600 else perm_0666)
            UnspecifiedError EmptyString) /\
  openMode s' = mode /\ finalFileName s' = finalFileName s /\
  writeError s' = writeError s /\
  w' = set_files
         (<[tmp := File (if exists_ w info then permissions w info
                         else Z.ldiff perm_0666 (umask w)) []]> (files w)) w.
Proof.
  intros H Htmp tmp. unfold openStaging in H.
  destruct (engine_open _ _ w) as [[ok fe] w1] eqn:E.
  apply engine_open_temp in E as [(-> & Hfresh & -> & ->)|(-> & _)]; simpl in H.
  - fold tmp in Hfresh, H |- *.
    set (pm0 := if exists_ w info then perm_0600 else perm_0666) in *.
    set (pm1 := Z.ldiff pm0 (umask w)) in *.
    pose proof (stat_create w tmp pm1 (filePath info) Hfresh) as Hst.
    cbv zeta in Hst. set (w1 := set_files _ w) in *.
    set (s1 := QFileDevice_open mode _) in *.
    assert (Hsp : forall pm, setPermissions pm s1 w1
              = (true, unsetError s1,
                 set_files (<[tmp := File pm []]> (files w)) w)).
    { intros pm.
      rewrite (setPermissions_file pm s1 w1 _ pm1 [] eq_refl)
        by (subst w1; simpl; apply lookup_insert_eq).
      subst w1. unfold set_files; simpl. by rewrite insert_insert_eq. }
    assert (Hcase :
      (exists_ w info = true /\ exists_ w1 info = true /\
       permissions w1 info = permissions w info) \/
      (exists_ w info = false /\
       (exists_ w1 info = false \/
        exists_ w1 info = true /\ permissions w1 info = pm1))).
    { unfold exists_, permissions.
      destruct (stat w (filePath info)); [left; by rewrite Hst | right].
      destruct Hst as [-> | ->]; auto. }
    destruct Hcase as [(Ex & Ex1 & Hp) | (Ex & [Ex1 | [Ex1 Hp]])];
      rewrite Ex1 in H; rewrite Ex; try rewrite Hp, Hsp in H;
      injection H as <- <-; repeat split; try done.
    all: subst w1 pm1 pm0; by rewrite Ex.
  - (* the temporary file could not be made: only the direct path opens *)
    exfalso.
    destruct (_ && _ && _ && _).
    + destruct (openDirectly _ _ _) as [[ok2 s2] w2] eqn:E2.
      apply openDirectly_inv in E2 as (_ & _ & _ & Hd).
      destruct ok2.
      * injection H as <- <-. destruct Hd as [_ Hd]; [done|]. congruence.
      * destruct (decide _); discriminate.
    + destruct (decide _); discriminate.
Qed.

Lemma open_true_inv mode s w s' w' :
  open mode s w = (true, s', w') ->
  isOpen s = false /\ isOpen s' = true /\ openMode s' = mode /\
  Z.land mode OpenMode.WriteOnly <> 0 /\ Z.land mode unsupportedFlags = 0 /\
  writeError s' = NoError /\ is_Some (fileEngine s') /\
  (useTemporaryFile s' = true ->
   let existingFile := (resolveSymLinks w (mkQFileInfo (fileName s)) (fileName s)).1 in
   let final := (resolveSymLinks w (mkQFileInfo (fileName s)) (fileName s)).2 in
   let tmp := final +:+ "." +:+ tmpSuffix w in
   files w !! tmp = None /\ finalFileName s' = final /\
   fileEngine s'
   = Some (mkFileEngine TemporaryFileEngine tmp
             (if exists_ w existingFile then perm_0600 else perm_0666)
             UnspecifiedError EmptyString) /\
   w' = set_files
          (<[tmp := File (if exists_ w existingFile
                          then permissions w existingFile
                          else Z.ldiff perm_0666 (umask w)) []]> (files w)) w).
Proof.
  intros H. unfold open in H.
  destruct (isOpen s) eqn:Hopen; [discriminate|].
  destruct (Z.eqb_spec (Z.land mode (Z.lor OpenMode.ReadOnly OpenMode.WriteOnly)) 0)
    as [|H3]; [discriminate|].
  fold unsupportedFlags in H.
  destruct (Z.eqb_spec (Z.land mode unsupportedFlags) 0) as [H0|]; [|discriminate].
  simpl in H.
  destruct (mode_accepted mode H3 H0) as [Hne Hw].
  destruct (_ && _); [discriminate|].
  destruct (isDir _ _); [discriminate|].
  simpl in H.
  destruct (resolveSymLinks _ _ _) as [info final] eqn:R. simpl.
  assert (Hmode : forall x : QSaveFile, openMode x = mode -> isOpen x = true).
  { intros x Hx. unfold isOpen. rewrite Hx. by destruct (Z.eqb_spec mode OpenMode.NotOpen). }
  destruct (requiresDirectWrite _ _).
  - unfold openWithoutRename in H. simpl in H.
    destruct (directWriteFallback s); [|discriminate].
    destruct (openDirectly _ _ _) as [[ok s1] w1] eqn:E.
    apply openDirectly_inv in E as (_ & Hfe & Hwe & Hd).
    destruct ok; [|discriminate]. injection H as <- <-.
    destruct Hd as [Hm Ht]; [done|]. repeat split; auto; congruence.
  - destruct (useTemporaryFile s') eqn:Ht.
    + apply openStaging_staged in H as (Hfresh & Hfe & Hm & Hf & Hwe & ->); [|done].
      simpl in *. rewrite Hfe. repeat split; auto.
    + assert (openMode s' = mode /\ writeError s' = NoError /\ is_Some (fileEngine s'))
        as (Hm & Hwe & Hfe).
      { unfold openStaging in H.
        destruct (engine_open _ _ w) as [[ok fe] w1] eqn:E. simpl in H.
        destruct ok; simpl in H.
        - destruct (exists_ w1 info).
          + destruct (setPermissions _ _ _) as [[? ?] ?] eqn:E2.
            unfold setPermissions in E2. simpl in E2.
            destruct (engine_setPermissions _ _ _) as [[[] ?] ?];
              injection E2 as <- <- <-; injection H as <- <-; done.
          + by injection H as <- <-.
        - destruct (_ && _ && _ && _).
          + destruct (openDirectly _ _ _) as [[ok2 s2] w2] eqn:E2.
            apply openDirectly_inv in E2 as (_ & Hfe & Hwe & Hd).
            destruct ok2; [|destruct (decide _); discriminate].
            injection H as <- <-. destruct Hd as [Hm _]; done.
          + destruct (decide _); discriminate. }
      repeat split; auto; discriminate.
Qed.

Lemma Session_opened_inv mode s0 w0 s w :
  open mode s0 w0 = (true, s, w) -> SessionInv s w.
Proof.
  intros H. apply open_true_inv in H
    as (_ & Hopen & _ & _ & _ & _ & [fe Hfe] & Hst).
  split; [done|]. exists fe. split; [done|]. intros Ht.
  destruct (Hst Ht) as (_ & -> & Hfe' & _). rewrite Hfe in Hfe'.
  injection Hfe' as ->. simpl. apply staging_name_ne.
Qed.

(** ** Calls that leave the session going *)

Lemma Frame_refl s w : Frame s w s w.
Proof.
  unfold Frame. repeat split. destruct (fileEngine s) as [fe|]; eauto 6.
Qed.

Lemma writeData_frame data s w r s' w' :
  writeData data s w = (r, s', w') -> Frame s w s' w'.
Proof.
  unfold writeData, QFileDevice_writeData. intros H.
  destruct (bool_decide (writeError s = NoError)); simpl in H;
    [|injection H as <- <- <-; apply Frame_refl].
  unfold Frame.
  destruct (fileEngine s) as [fe|] eqn:Hfe.
  - unfold engine_write in H.
    destruct (writeFaults w) as [|[f|] rest]; simpl in H;
      repeat match type of H with
      | context [if ?c then _ else _] => destruct c
      end;
      injection H as <- <- <-; simpl; eauto 10.
  - simpl in H. injection H as <- <- <-. simpl. done.
Qed.

Lemma step_frame op s w s' w' :
  keepsGoing op = true -> isOpen s = true ->
  step op s w = Returned (s', w') -> Frame s w s' w'.
Proof.
  intros Hop Hopen H. destruct op; try discriminate; simpl in H.
  - unfold open in H. rewrite Hopen in H. injection H as <- <-.
    unfold Frame. repeat split. destruct (fileEngine s); simpl; eauto 6.
  - destruct (write _ _ _) as [[r s1] w1] eqn:E. injection H as <- <-.
    unfold write in E. destruct (_ =? _)%Z.
    + injection E as <- <- <-. apply Frame_refl.
    + by apply writeData_frame in E.
  - injection H as <- <-. unfold cancelWriting. rewrite Hopen. simpl.
    unfold Frame; simpl. repeat split. destruct (fileEngine s); eauto 6.
  - injection H as <- <-.
    unfold Frame; simpl. repeat split. destruct (fileEngine s); eauto 6.
  - injection H as <- <-.
    unfold Frame; simpl. repeat split. destruct (fileEngine s); eauto 6.
Qed.

Lemma Frame_inv s w s' w' :
  Frame s w s' w' -> SessionInv s w -> SessionInv s' w'.
Proof.
  intros (Hm & Ht & Hf & He) (Hopen & fe & Hfe & Hne).
  rewrite Hfe in He. destruct He as [(fe' & Hfe' & Hp) _].
  split. { unfold isOpen in *. by rewrite Hm. }
  exists fe'. split; [done|]. rewrite Ht, Hf, Hp. done.
Qed.

Lemma Frame_staged pm s w s' w' :
  Frame s w s' w' -> StagedWith pm s w -> StagedWith pm s' w'.
Proof.
  intros (_ & _ & _ & He) (fe & d & Hfe & Hfile).
  rewrite Hfe in He. destruct He as [(fe' & Hfe' & Hp) Hw].
  unfold StagedWith. destruct Hw as [-> | [data ->]].
  - exists fe', d. by rewrite Hp.
  - exists fe', (d ++ data)%list. split; [done|].
    by rewrite Hp, lookup_alter_eq, Hfile.
Qed.

(** A call that leaves the session going touches no file but the one
    the engine works on. *)
Lemma Frame_elsewhere s w s' w' fe p :
  Frame s w s' w' -> fileEngine s = Some fe -> p <> enginePath fe ->
  files w' !! p = files w !! p.
Proof.
  intros (_ & _ & _ & He) Hfe Hne. rewrite Hfe in He.
  destruct He as [_ [-> | [data ->]]]; [done|].
  by rewrite lookup_alter_ne.
Qed.

Lemma Session_inv s w : Session s w -> SessionInv s w.
Proof.
  induction 1 as [mode s0 w0 s w H | op s w s' w' _ IH Hop H].
  - by eapply Session_opened_inv.
  - eapply Frame_inv; [|done]. eapply step_frame; [done| |done]. apply IH.
Qed.

Lemma step_returns op s w :
  keepsGoing op = true -> exists s' w', step op s w = Returned (s', w').
Proof.
  intros Hop. destruct op; try discriminate; simpl; eauto.
  - destruct (open _ _ _) as [[? ?] ?]; eauto.
  - destruct (write _ _ _) as [[? ?] ?]; eauto.
Qed.

#[local] Hint Resolve Frame_refl Frame_inv Frame_staged : savefile.

(** Unpacks the invariant of a session state. *)
Ltac session_inv Hs :=
  let Hopen := fresh "Hopen" in
  let fe := fresh "fe" in
  let Hfe := fresh "Hfe" in
  let Hne := fresh "Hne" in
  destruct (Session_inv _ _ Hs) as (Hopen & fe & Hfe & Hne).

(** ** The latch *)

Lemma latched_writeData data s w :
  writeError s <> NoError -> writeData data s w = (-1, s, w).
Proof.
  intros H. unfold writeData. by rewrite bool_decide_eq_false_2.
Qed.

Lemma latched_write data s w :
  writeError s <> NoError -> write data s w = (-1, s, w).
Proof.
  intros H. unfold write. destruct (_ =? _)%Z; [done|].
  by apply latched_writeData.
Qed.

Lemma latch_step op s w s' w' :
  keepsGoing op = true -> isOpen s = true -> writeError s <> NoError ->
  step op s w = Returned (s', w') -> writeError s' <> NoError.
Proof.
  intros Hop Hopen Hl H. destruct op; try discriminate; simpl in H.
  - unfold open in H. rewrite Hopen in H. by injection H as <- <-.
  - rewrite latched_write in H by done. by injection H as <- <-.
  - injection H as <- <-. unfold cancelWriting. by rewrite Hopen.
  - by injection H as <- <-.
  - by injection H as <- <-.
Qed.

(** A write the engine fails, with an error of some kind, sets the
    latch to that error, [WriteError] for an unspecified one, and adds no
    byte to any file. *)
Lemma failed_write_latches data s w fe f rest :
  writeError s = NoError -> fileEngine s = Some fe ->
  writeFaults w = Some f :: rest -> f_error f <> NoError ->
  exists s' w', writeData data s w = (-1, s', w') /\
    writeError s'
    = (if decide (f_error f = UnspecifiedError) then WriteError else f_error f) /\
    writeError s' <> NoError /\ files w' = files w.
Proof.
  intros Hl Hfe Hf Hk.
  unfold writeData, QFileDevice_writeData, engine_write.
  rewrite bool_decide_eq_true_2 by done. simpl. rewrite Hfe, Hf. simpl.
  destruct (decide (f_error f = UnspecifiedError)) as [Hu|Hu]; simpl.
  - eexists _, _. split; [reflexivity|]. done.
  - rewrite bool_decide_eq_false_2 by done. simpl.
    eexists _, _. split; [reflexivity|]. done.
Qed.

(** Until [commit], a staging session leaves the destination alone. *)
Lemma session_leaves_destination op s w s' w' :
  Session s w -> useTemporaryFile s = true -> keepsGoing op = true ->
  step op s w = Returned (s', w') ->
  files w' !! finalFileName s = files w !! finalFileName s.
Proof.
  intros Hs Ht Hop H. session_inv Hs.
  eapply Frame_elsewhere; [by eapply step_frame|done|].
  intros E. by apply Hne.
Qed.

(** ** commit *)

Section Commit.
Variables (s : QSaveFile) (w : World) (fe : FileEngine).
Hypothesis Hopen : isOpen s = true.
Hypothesis Hfe : fileEngine s = Some fe.

Lemma commit_unfold :
  commit s w
  = if useTemporaryFile s then
      if negb (bool_decide (writeError s = NoError)) then
        (false, set_writeError NoError (afterClose s), engine_remove fe w)
      else
        let '(ok, fe1, w1) := engine_renameOverwrite fe (finalFileName s) w in
        if negb ok then
          (false, setError (fileError fe1) (engineErrorString fe1) (afterClose s),
           engine_remove fe1 w1)
        else (true, afterClose s, w1)
    else (true, afterClose s, w).
Proof.
  unfold commit, afterClose, QFileDevice_close. by rewrite Hfe, Hopen.
Qed.

Lemma commit_staging :
  useTemporaryFile s = true ->
  (writeError s <> NoError ->
   exists s', commit s w = (false, s', engine_remove fe w) /\
     writeError s' = NoError /\ isOpen s' = false /\ fileEngine s' = None) /\
  (writeError s = NoError ->
   forall ok fe1 w1,
     engine_renameOverwrite fe (finalFileName s) w = (ok, fe1, w1) ->
     if ok then exists s', commit s w = (true, s', w1) /\ fileEngine s' = None
     else exists s', commit s w = (false, s', engine_remove fe1 w1) /\
            error s' = fileError fe1 /\ errorString s' = engineErrorString fe1 /\
            isOpen s' = false /\ fileEngine s' = None).
Proof.
  intros Ht. rewrite commit_unfold, Ht. unfold afterClose, QFileDevice_close.
  rewrite Hopen. split.
  - intros Hl. rewrite bool_decide_eq_false_2 by done. simpl. eauto 10.
  - intros Hl. rewrite bool_decide_eq_true_2 by done. simpl.
    intros ok fe1 w1 ->. destruct ok; simpl; eauto 10.
Qed.

Lemma commit_direct :
  useTemporaryFile s = false ->
  exists s', commit s w = (true, s', w) /\ writeError s' = writeError s /\
    isOpen s' = false /\ fileEngine s' = None.
Proof.
  intros Ht. rewrite commit_unfold, Ht. unfold afterClose, QFileDevice_close.
  rewrite Hopen. eauto 10.
Qed.

Lemma commit_false_discards s' w' :
  useTemporaryFile s = true -> commit s w = (false, s', w') ->
  files w' = delete (enginePath fe) (files w) /\
  (writeError s = NoError ->
   exists fe1 w1,
     engine_renameOverwrite fe (finalFileName s) w = (false, fe1, w1) /\
     error s' = fileError fe1 /\ errorString s' = engineErrorString fe1).
Proof.
  intros Ht H. destruct (commit_staging Ht) as [Hl Hr].
  destruct (decide (writeError s = NoError)) as [Hn|Hn].
  - destruct (engine_renameOverwrite fe (finalFileName s) w)
      as [[ok fe1] w1] eqn:E.
    specialize (Hr Hn _ _ _ eq_refl). destruct ok.
    + destruct Hr as (s1 & Hc & _). congruence.
    + destruct Hr as (s1 & Hc & He & Hes & _).
      rewrite Hc in H. injection H as <- <-.
      apply renameOverwrite_false in E as Hp. destruct Hp as [Hp Hf].
      split; [|eauto]. simpl. by rewrite Hp, Hf.
  - destruct (Hl Hn) as (s1 & Hc & _). rewrite Hc in H. injection H as <- <-.
    split; [done|]. intros; done.
Qed.

(** The destructor discards what the engine was working on. *)
Lemma destroy_discards :
  files (destroy s w) = delete (enginePath fe) (files w).
Proof.
  unfold destroy, QFileDevice_close. rewrite Hopen. simpl. by rewrite Hfe.
Qed.
End Commit.

(** ** From open to commit in staging mode *)

Lemma run_staged pm ops s w s' w' :
  forallb keepsGoing ops = true ->
  run ops s w = Returned (s', w') ->
  SessionInv s w -> StagedWith pm s w ->
  SessionInv s' w' /\ StagedWith pm s' w' /\
  useTemporaryFile s' = useTemporaryFile s /\
  finalFileName s' = finalFileName s.
Proof.
  revert s w. induction ops as [|op ops IH]; intros s w Hops H Hi Hst; simpl in H.
  - by injection H as <- <-.
  - simpl in Hops. apply andb_prop in Hops as [Hop Hops].
    destruct (step op s w) as [[s1 w1]|] eqn:E; [|done].
    assert (Hfr : Frame s w s1 w1).
    { eapply step_frame; [done| |done]. by destruct Hi. }
    destruct (IH s1 w1 Hops H) as (? & ? & Ht & Hf); eauto with savefile.
    destruct Hfr as (_ & Ht1 & Hf1 & _).
    split; [done|]. split; [done|]. split; congruence.
Qed.

Lemma commit_true_staged pm s w s' w' :
  SessionInv s w -> StagedWith pm s w -> useTemporaryFile s = true ->
  commit s w = (true, s', w') ->
  exists d, files w' !! finalFileName s = Some (File pm d).
Proof.
  intros (Hopen & fe & Hfe & _) (fe' & d & Hfe' & Hfile) Ht Hc.
  rewrite Hfe in Hfe'. injection Hfe' as <-.
  destruct (commit_staging s w fe Hopen Hfe Ht) as [Hl Hr].
  destruct (decide (writeError s = NoError)) as [Hn|Hn].
  - destruct (engine_renameOverwrite fe (finalFileName s) w) as [[ok fe1] w1] eqn:E.
    specialize (Hr Hn _ _ _ eq_refl). destruct ok.
    + destruct Hr as (s1 & Hc1 & _). rewrite Hc1 in Hc. injection Hc as <- <-.
      apply (renameOverwrite_true _ _ _ _ _ _ Hfile) in E.
      exists d. by rewrite E, lookup_insert_eq.
    + destruct Hr as (s1 & Hc1 & _). congruence.
  - destruct (Hl Hn) as (s1 & Hc1 & _). congruence.
Qed.

(** ** The sample sessions *)

Lemma Session_after_open mode ops s0 w0 :
  (open mode s0 w0).1.1 = true ->
  forallb keepsGoing ops = true ->
  Session (after (OpOpen mode :: ops) s0 w0).1 (after (OpOpen mode :: ops) s0 w0).2.
Proof.
  intros Hopen Hops. unfold after. simpl.
  destruct (open mode s0 w0) as [[ok s] w] eqn:E. simpl in Hopen. subst ok.
  assert (Hs : Session s w) by (by eapply Session_opened).
  clear E. revert s w Hs. induction ops as [|op ops IH]; intros s w Hs; simpl.
  - done.
  - simpl in Hops. apply andb_prop in Hops as [Hop Hops].
    destruct (step_returns op s w Hop) as (s1 & w1 & E). rewrite E.
    apply IH; [done|]. by eapply Session_step.
Qed.

(** Proves that a sample made with [after] from an [open] is a session. *)
Ltac sample_session :=
  unfold cancelledSession, cleanSession;
  apply Session_after_open; reflexivity.


Lemma directSession_ok : Session directSession.1 directSession.2.
Proof.
  eapply (Session_opened OpenMode.WriteOnly
            (setDirectWriteFallback true (new_QSaveFile "/ro/doc.txt")) roWorld).
  by vm_compute.
Qed.

Lemma directLatched_ok : Session directLatched.1 directLatched.2.
Proof.
  eapply (Session_step (OpWrite hello)); [apply directSession_ok|done|].
  by vm_compute.
Qed.

(** The scenarios of section 8 of the specification, run on the model. *)

Example commit_replaces_document :
  let '(s, w) := after [OpOpen OpenMode.WriteOnly; OpWrite hello; OpCommit]
                       (new_QSaveFile "/tmp/doc.txt") docWorld in
  isOpen s = false /\
  map_to_list (files w) = [("/tmp/doc.txt", File 420 hello)].
Proof. by vm_compute. Qed.

Example new_document_gets_umask :
  let '(s, w) := after [OpOpen OpenMode.WriteOnly; OpWrite hello; OpCommit]
                       (new_QSaveFile "/tmp/new.txt") (world_of Unix ∅) in
  map_to_list (files w) = [("/tmp/new.txt", File 420 hello)].
Proof. by vm_compute. Qed.

Example failed_write_keeps_document :
  let '(s, w) := after [OpOpen OpenMode.WriteOnly; OpWrite hello; OpWrite hello]
                       (new_QSaveFile "/tmp/doc.txt") fullDiskWorld in
  writeError s = ResourceError /\
  (commit s w).1.1 = false /\
  map_to_list (files (commit s w).2) = [("/tmp/doc.txt", File 420 [x61])].
Proof. by vm_compute. Qed.

Example directory_is_refused :
  let '(ok, s, w) := open OpenMode.WriteOnly (new_QSaveFile "/tmp/dir") dirWorld in
  ok = false /\ error s = WriteError /\
  errorString s = "Filename refers to a directory" /\
  map_to_list (files w) = map_to_list (files dirWorld).
Proof. by vm_compute. Qed.

Example link_is_followed :
  let '(s, w) := after [OpOpen OpenMode.WriteOnly; OpWrite hello; OpCommit]
                       (new_QSaveFile "/l") (chainWorld 2) in
  finalFileName s = "/lxx" /\
  files w !! "/lxx" = Some (File 420 hello) /\
  files w !! "/l" = Some (Link "/lx").
Proof. by vm_compute. Qed.

Example destructor_discards :
  let '(s, w) := cleanSession docWorld in
  map_to_list (files w)
  = [("/tmp/doc.txt.aB3xYz", File 420 hello); ("/tmp/doc.txt", File 420 [x61])] /\
  map_to_list (files (destroy s w)) = [("/tmp/doc.txt", File 420 [x61])].
Proof. by vm_compute. Qed.

(** * The specification, sentence by sentence *)

(** C1, as the code has it.  In an open session whose write error latch
    is set, every [write] returns -1 and leaves the object and the whole
    world as they are, so the engine is not called, and the latch is still
    set after any call that leaves the session going.  In staging mode
    [commit] then returns false and the destination is untouched.  In
    direct write mode [commit] does not look at the latch: it returns
    true and changes nothing in the world. *)
Theorem latched_session_rejects_writes (s : QSaveFile) (w : World) :
  Session s w -> writeError s <> NoError ->
  (forall data, write data s w = (-1, s, w)) /\
  (forall data, writeData data s w = (-1, s, w)) /\
  (forall op s1 w1, keepsGoing op = true -> step op s w = Returned (s1, w1) ->
     writeError s1 <> NoError) /\
  (useTemporaryFile s = true ->
   exists s' w', commit s w = (false, s', w') /\
     files w' !! finalFileName s = files w !! finalFileName s) /\
  (useTemporaryFile s = false -> exists s', commit s w = (true, s', w)).
Proof.
  intros Hs Hl. session_inv Hs.
  split; [|split; [|split; [|split]]].
  - intros data. by apply latched_write.
  - intros data. by apply latched_writeData.
  - intros op s1 w1 Hop H. by eapply latch_step.
  - intros Ht.
    destruct (commit_staging s w fe Hopen Hfe Ht) as [Hc _].
    destruct (Hc Hl) as (s' & Hc' & _). exists s', (engine_remove fe w).
    split; [done|]. simpl. apply lookup_delete_ne. auto.
  - intros Ht. destruct (commit_direct s w fe Hopen Hfe Ht) as (s' & Hc & _).
    eauto.
Qed.

Lemma latched_session_rejects_writes_witness :
  let s := cancelledSession.1 in
  let w := cancelledSession.2 in
  Session s w /\ writeError s <> NoError /\
  ((forall data, write data s w = (-1, s, w)) /\
   (forall data, writeData data s w = (-1, s, w)) /\
   (forall op s1 w1, keepsGoing op = true -> step op s w = Returned (s1, w1) ->
      writeError s1 <> NoError) /\
   (useTemporaryFile s = true ->
    exists s' w', commit s w = (false, s', w') /\
      files w' !! finalFileName s = files w !! finalFileName s) /\
   (useTemporaryFile s = false -> exists s', commit s w = (true, s', w))).
Proof.
  intros s w.
  assert (Hs : Session s w) by (subst s w; sample_session).
  assert (Hl : writeError s <> NoError) by (vm_compute; discriminate).
  split; [exact Hs|]. split; [exact Hl|].
  exact (latched_session_rejects_writes s w Hs Hl).
Defined.

(** C1, as stated, fails in direct write mode: after a write has failed
    and set the latch, [commit] returns true, and the document has lost
    its old content. *)
Lemma latched_commit_succeeds_in_direct_mode :
  Session directLatched.1 directLatched.2 /\
  writeError directLatched.1 = ResourceError /\
  useTemporaryFile directLatched.1 = false /\
  (commit directLatched.1 directLatched.2).1.1 = true /\
  files roWorld !! "/ro/doc.txt" = Some (File 420 [x61]) /\
  files (commit directLatched.1 directLatched.2).2 !! "/ro/doc.txt"
  = Some (File 420 []).
Proof.
  split; [apply directLatched_ok|]. by vm_compute.
Qed.

(** C2.  In a session opened in staging mode, whenever [commit] returns
    false the world afterwards is the world before without the staging
    file: the staging file is gone and every other entry, the destination
    among them, is as it was.  If the latch was not set, the reason was
    the failed replacement, and the error and message of the engine are
    then those of the save file. *)
Theorem failed_commit_discards_staging (s s' : QSaveFile) (w w' : World) :
  Session s w -> useTemporaryFile s = true ->
  commit s w = (false, s', w') ->
  exists fe, fileEngine s = Some fe /\
    files w' = delete (enginePath fe) (files w) /\
    files w' !! enginePath fe = None /\
    files w' !! finalFileName s = files w !! finalFileName s /\
    (writeError s = NoError ->
     exists fe1 w1,
       engine_renameOverwrite fe (finalFileName s) w = (false, fe1, w1) /\
       error s' = fileError fe1 /\ errorString s' = engineErrorString fe1).
Proof.
  intros Hs Ht Hc. session_inv Hs.
  destruct (commit_false_discards s w fe Hopen Hfe s' w' Ht Hc) as [Hf Hr].
  exists fe. rewrite Hf.
  split; [done|]. split; [done|]. split; [|split; [|done]].
  - apply lookup_delete_eq.
  - apply lookup_delete_ne. auto.
Qed.

Lemma failed_commit_discards_staging_witness :
  let s := (cleanSession noRenameWorld).1 in
  let w := (cleanSession noRenameWorld).2 in
  let s' := (commit s w).1.2 in
  let w' := (commit s w).2 in
  Session s w /\ useTemporaryFile s = true /\ commit s w = (false, s', w') /\
  exists fe, fileEngine s = Some fe /\
    files w' = delete (enginePath fe) (files w) /\
    files w' !! enginePath fe = None /\
    files w' !! finalFileName s = files w !! finalFileName s /\
    (writeError s = NoError ->
     exists fe1 w1,
       engine_renameOverwrite fe (finalFileName s) w = (false, fe1, w1) /\
       error s' = fileError fe1 /\ errorString s' = engineErrorString fe1).
Proof.
  intros s w s' w'.
  assert (Hs : Session s w) by (subst s w; sample_session).
  assert (Ht : useTemporaryFile s = true) by reflexivity.
  assert (Hc : commit s w = (false, s', w')) by (vm_compute; reflexivity).
  split; [exact Hs|]. split; [exact Ht|]. split; [exact Hc|].
  exact (failed_commit_discards_staging s s' w w' Hs Ht Hc).
Defined.







(** C5.  On a save file that is not open and with a mode [open] accepts,
    a name whose target exists and is a directory, or exists and is not
    writable, makes [open] return false with [WriteError] as the error
    (and as the latch).  No engine has been created and the world is the
    same world: no staging file, the destination as it was. *)
Theorem open_refuses_directory_or_readonly (mode : Z) (s : QSaveFile) (w : World) :
  isOpen s = false ->
  Z.land mode OpenMode.WriteOnly <> 0 -> Z.land mode unsupportedFlags = 0 ->
  exists_ w (mkQFileInfo (fileName s)) = true ->
  isDir w (mkQFileInfo (fileName s)) = true \/
  isWritable w (mkQFileInfo (fileName s)) = false ->
  exists s', open mode s w = (false, s', w) /\
    error s' = WriteError /\ writeError s' = WriteError /\
    fileEngine s' = fileEngine s /\ isOpen s' = false.
Proof.
  intros Hopen Hw H0 Hex Hcase. unfold open. rewrite Hopen.
  destruct (Z.eqb_spec (Z.land mode (Z.lor OpenMode.ReadOnly OpenMode.WriteOnly)) 0)
    as [H3|_].
  { rewrite Z.land_lor_distr_r in H3. apply Z.lor_eq_0_iff in H3 as [_ H3]. done. }
  fold unsupportedFlags. rewrite H0. simpl. rewrite Hex. simpl.
  destruct (isWritable w _) eqn:Hwr; simpl.
  - destruct Hcase as [-> | ?]; [|done]. eexists. split; [reflexivity|]. done.
  - eexists. split; [reflexivity|]. done.
Qed.

Lemma open_refuses_directory_or_readonly_witness :
  let s := new_QSaveFile "/tmp/dir" in
  isOpen s = false /\
  Z.land OpenMode.WriteOnly OpenMode.WriteOnly <> 0 /\
  Z.land OpenMode.WriteOnly unsupportedFlags = 0 /\
  exists_ dirWorld (mkQFileInfo (fileName s)) = true /\
  (isDir dirWorld (mkQFileInfo (fileName s)) = true \/
   isWritable dirWorld (mkQFileInfo (fileName s)) = false) /\
  exists s', open OpenMode.WriteOnly s dirWorld = (false, s', dirWorld) /\
    error s' = WriteError /\ writeError s' = WriteError /\
    fileEngine s' = fileEngine s /\ isOpen s' = false.
Proof.
  intros s.
  assert (H1 : isOpen s = false) by reflexivity.
  assert (H2 : Z.land OpenMode.WriteOnly OpenMode.WriteOnly <> 0)
    by (vm_compute; discriminate).
  assert (H3 : Z.land OpenMode.WriteOnly unsupportedFlags = 0) by reflexivity.
  assert (H4 : exists_ dirWorld (mkQFileInfo (fileName s)) = true)
    by (vm_compute; reflexivity).
  assert (H5 : isDir dirWorld (mkQFileInfo (fileName s)) = true \/
               isWritable dirWorld (mkQFileInfo (fileName s)) = false)
    by (left; vm_compute; reflexivity).
  repeat (split; [assumption|]).
  exact (open_refuses_directory_or_readonly _ s dirWorld H1 H2 H3 H4 H5).
Defined.

(** The other half of C5 on a sample: a document nobody may write. *)
Example locked_document_is_refused :
  let '(ok, s, w) :=
    open OpenMode.WriteOnly (new_QSaveFile "/tmp/locked.txt") dirWorld in
  ok = false /\ error s = WriteError /\
  errorString s = "Existing file /tmp/locked.txt is not writable" /\
  map_to_list (files w) = map_to_list (files dirWorld).
Proof. by vm_compute. Qed.

(** C6, as the code has it.  On a save file that is not open, a mode
    without [WriteOnly], or with one of [ReadOnly], [Append], [NewOnly]
    and [ExistingOnly], makes [open] return false after a warning.  No
    error is set: the error of the save file and the latch are [NoError],
    no engine has been created, and the world differs by the warning
    only. *)
Theorem open_refuses_mode (mode : Z) (s : QSaveFile) (w : World) :
  isOpen s = false ->
  Z.land mode OpenMode.WriteOnly = 0 \/ Z.land mode unsupportedFlags <> 0 ->
  exists s' warning, open mode s w = (false, s', qWarning warning w) /\
    (warning = WarnModeNotSpecified \/ warning = WarnUnsupportedMode mode) /\
    error s' = NoError /\ errorString s' = EmptyString /\
    writeError s' = NoError /\
    fileEngine s' = fileEngine s /\ isOpen s' = false.
Proof.
  intros Hopen Hmode. apply mode_refused in Hmode. unfold open. rewrite Hopen.
  destruct (Z.eqb_spec (Z.land mode (Z.lor OpenMode.ReadOnly OpenMode.WriteOnly)) 0)
    as [H3|H3].
  - eexists _, _. split; [reflexivity|]. repeat split; auto.
  - destruct Hmode as [?|Hu]; [done|]. fold unsupportedFlags.
    destruct (Z.eqb_spec (Z.land mode unsupportedFlags) 0); [done|]. simpl.
    eexists _, _. split; [reflexivity|]. repeat split; auto.
Qed.

Lemma open_refuses_mode_witness :
  let s := new_QSaveFile "/tmp/doc.txt" in
  isOpen s = false /\
  (Z.land OpenMode.ReadWrite OpenMode.WriteOnly = 0 \/
   Z.land OpenMode.ReadWrite unsupportedFlags <> 0) /\
  exists s' warning,
    open OpenMode.ReadWrite s docWorld = (false, s', qWarning warning docWorld) /\
    (warning = WarnModeNotSpecified \/
     warning = WarnUnsupportedMode OpenMode.ReadWrite) /\
    error s' = NoError /\ errorString s' = EmptyString /\
    writeError s' = NoError /\
    fileEngine s' = fileEngine s /\ isOpen s' = false.
Proof.
  intros s.
  assert (H1 : isOpen s = false) by reflexivity.
  assert (H2 : Z.land OpenMode.ReadWrite OpenMode.WriteOnly = 0 \/
               Z.land OpenMode.ReadWrite unsupportedFlags <> 0)
    by (right; vm_compute; discriminate).
  split; [exact H1|]. split; [exact H2|].
  exact (open_refuses_mode OpenMode.ReadWrite s docWorld H1 H2).
Defined.

(** C6, as stated, fails: [open] with [ReadOnly] returns false, and the
    error of the save file is [NoError], not [OpenError]; the only trace
    is the warning. *)
Lemma refused_mode_sets_no_error :
  let r := open OpenMode.ReadOnly (new_QSaveFile "/tmp/doc.txt") docWorld in
  r.1.1 = false /\ error r.1.2 = NoError /\ error r.1.2 <> OpenError /\
  console r.2 = [WarnUnsupportedMode OpenMode.ReadOnly].
Proof. by vm_compute. Qed.

(** C7, as the code has it.  After an [open] that succeeded in staging
    mode: the temporary
    file engine was given mode 0600 when the file info [open] ends up
    with exists and 0666 otherwise; the staging file is a new, empty file
    whose permission bits are those of the existing file when there is
    one, and 0666 cut down by the umask when there is none; the file info
    is that of the destination unless the link loop ran out.  And after
    any calls that leave the session going, a [commit] that returns true
    leaves a file under the destination with these permission bits. *)
Theorem staging_permissions (mode : Z) (s s' : QSaveFile) (w w' : World) :
  open mode s w = (true, s', w') -> useTemporaryFile s' = true ->
  let existingFile :=
    (resolveSymLinks w (mkQFileInfo (fileName s)) (fileName s)).1 in
  let bits :=
    if exists_ w existingFile then permissions w existingFile
    else Z.ldiff perm_0666 (umask w) in
  exists fe, fileEngine s' = Some fe /\ kind fe = TemporaryFileEngine /\
    createMode fe = (if exists_ w existingFile then perm_0600 else perm_0666) /\
    files w !! enginePath fe = None /\
    files w' !! enginePath fe = Some (File bits []) /\
    (isSymLink w (mkQFileInfo (fileName s)) = false \/
     (0 < (followSymLinks w 128 (mkQFileInfo (fileName s))).1)%nat ->
     filePath existingFile = finalFileName s') /\
    (forall ops s2 w2 s3 w3,
       forallb keepsGoing ops = true ->
       run ops s' w' = Returned (s2, w2) ->
       commit s2 w2 = (true, s3, w3) ->
       (exists d, files w3 !! finalFileName s' = Some (File bits d)) /\
       permissions w3 (mkQFileInfo (finalFileName s')) = bits).
Proof.
  intros Hopen Ht existingFile bits.
  pose proof (Session_opened_inv _ _ _ _ _ Hopen) as Hinv.
  apply open_true_inv in Hopen as (_ & _ & _ & _ & _ & _ & _ & Hst).
  destruct (Hst Ht) as (Hfresh & Hfinal & Hfe & Hw). clear Hst.
  fold existingFile in Hfe, Hw. fold bits in Hw.
  assert (Hsw : StagedWith bits s' w').
  { eexists _, []. split; [exact Hfe|]. rewrite Hw. simpl.
    apply lookup_insert_eq. }
  eexists. split; [exact Hfe|]. simpl.
  split; [done|]. split; [done|]. split; [done|].
  split; [|split].
  - rewrite Hw. simpl. apply lookup_insert_eq.
  - rewrite Hfinal. subst existingFile. unfold resolveSymLinks.
    intros [-> | Hd]; [done|].
    destruct (isSymLink w _); [|done].
    destruct (followSymLinks w 128 _) as [maxDepth fi]. simpl in Hd.
    by destruct (Nat.ltb_spec 0 maxDepth); [|lia].
  - intros ops s2 w2 s3 w3 Hops Hrun Hcommit.
    destruct (run_staged bits ops s' w' s2 w2 Hops Hrun Hinv Hsw)
      as (Hinv2 & Hsw2 & Ht2 & Hf2).
    destruct (commit_true_staged bits s2 w2 s3 w3 Hinv2 Hsw2) as [d Hd];
      [congruence|done|].
    rewrite Hf2 in Hd. split; [by exists d|].
    unfold permissions. simpl. by rewrite (stat_file _ _ _ _ Hd).
Qed.

Lemma staging_permissions_witness :
  let s := new_QSaveFile "/tmp/doc.txt" in
  let w := privateDocWorld in
  let r := open OpenMode.WriteOnly s w in
  let existingFile :=
    (resolveSymLinks w (mkQFileInfo (fileName s)) (fileName s)).1 in
  let ops := [OpWrite hello; OpSetFileName "/tmp/other.txt"] in
  let a := after ops r.1.2 r.2 in
  let c := commit a.1 a.2 in
  open OpenMode.WriteOnly s w = (true, r.1.2, r.2) /\
  useTemporaryFile r.1.2 = true /\
  forallb keepsGoing ops = true /\
  run ops r.1.2 r.2 = Returned (a.1, a.2) /\
  commit a.1 a.2 = (true, c.1.2, c.2) /\
  exists_ w existingFile = true /\ permissions w existingFile = 416 /\
  (exists fe, fileEngine r.1.2 = Some fe /\ kind fe = TemporaryFileEngine /\
     createMode fe = perm_0600 /\
     files w !! enginePath fe = None /\
     files r.2 !! enginePath fe = Some (File 416 []) /\
     filePath existingFile = finalFileName r.1.2) /\
  (exists d, files c.2 !! finalFileName r.1.2 = Some (File 416 d)) /\
  permissions c.2 (mkQFileInfo (finalFileName r.1.2)) = 416.
Proof.
  intros s w r existingFile ops a c.
  assert (H1 : open OpenMode.WriteOnly s w = (true, r.1.2, r.2))
    by (vm_compute; reflexivity).
  assert (H2 : useTemporaryFile r.1.2 = true) by (vm_compute; reflexivity).
  assert (H3 : forallb keepsGoing ops = true) by reflexivity.
  assert (H4 : run ops r.1.2 r.2 = Returned (a.1, a.2))
    by (vm_compute; reflexivity).
  assert (H5 : commit a.1 a.2 = (true, c.1.2, c.2))
    by (vm_compute; reflexivity).
  assert (H6 : exists_ w existingFile = true) by (vm_compute; reflexivity).
  assert (H7 : permissions w existingFile = 416) by (vm_compute; reflexivity).
  assert (H8 : isSymLink w (mkQFileInfo (fileName s)) = false)
    by (vm_compute; reflexivity).
  split; [exact H1|]. split; [exact H2|]. split; [exact H3|].
  split; [exact H4|]. split; [exact H5|]. split; [exact H6|].
  split; [exact H7|].
  destruct (staging_permissions OpenMode.WriteOnly s r.1.2 w r.2 H1 H2)
    as (fe & Hfe & Hk & Hcm & Hfresh & Hst & Hdest & Hcommit).
  fold existingFile in Hcm, Hst, Hdest, Hcommit.
  rewrite H6 in Hcm, Hst, Hcommit. rewrite H7 in Hst, Hcommit.
  split.
  - exists fe. split; [exact Hfe|]. split; [exact Hk|]. split; [exact Hcm|].
    split; [exact Hfresh|]. split; [exact Hst|]. apply Hdest. left. exact H8.
  - exact (Hcommit ops a.1 a.2 c.1.2 c.2 H3 H4 H5).
Defined.

(** C7, where the claim goes wrong.  ["/l"] is the first of 127 links to
    a program with mode 0755.  The link loop runs out, so that the
    destination is ["/l"] itself, and no file exists there: the platform
    gives up on so many links.  The file info [open] ends up with is that
    of the program, which does exist: the temporary file engine is given
    0600 and the staging file the bits 0755 of the program, not 0666 cut
    down by the umask, and [commit] leaves them on the destination. *)
Lemma long_chain_takes_bits_of_its_end :
  let s := new_QSaveFile "/l" in
  let w := longChainWorld in
  let r := open OpenMode.WriteOnly s w in
  let c := commit r.1.2 r.2 in
  r.1.1 = true /\ useTemporaryFile r.1.2 = true /\
  finalFileName r.1.2 = "/l" /\
  exists_ w (mkQFileInfo "/l") = false /\
  Z.ldiff perm_0666 (umask w) = 420 /\
  createMode <$> fileEngine r.1.2 = Some perm_0600 /\
  (fileEngine r.1.2 ≫= fun fe => files r.2 !! enginePath fe)
  = Some (File 493 []) /\
  c.1.1 = true /\ files c.2 !! "/l" = Some (File 493 []).
Proof. by vm_compute. Qed.

(** C7 on a sample: the bits 0640 of a document survive the save. *)
Example permissions_are_mirrored :
  let w0 := world_of Unix {[ "/tmp/doc.txt" := File 416 [x61] ]} in
  let '(s, w) := after [OpOpen OpenMode.WriteOnly; OpWrite hello; OpCommit]
                       (new_QSaveFile "/tmp/doc.txt") w0 in
  permissions w0 (mkQFileInfo "/tmp/doc.txt") = 416 /\
  permissions w (mkQFileInfo "/tmp/doc.txt") = 416 /\
  files w !! "/tmp/doc.txt" = Some (File 416 hello).
Proof. by vm_compute. Qed.

(** C8, as the code has it.  Path resolution is a total function of the
    world and the name.  A name that is not a symbolic link, and so a
    name with nothing under it, is its own resolved path.  From a
    symbolic link the loop follows at most 127 links, asking each path it
    reaches whether it is a link: when the chain ends after at most 126
    links, the resolved path is the path it ends in; when 127 links can be
    followed, the resolved path is the name itself.  One of these cases
    always applies. *)
Theorem path_resolution (w : World) (p : string) :
  let resolved := (resolveSymLinks w (mkQFileInfo p) p).2 in
  (isSymLink w (mkQFileInfo p) = false -> resolved = p) /\
  (files w !! p = None -> resolved = p) /\
  (forall k q, (1 <= k <= 126)%nat -> follow w k p = Some q ->
     isSymLink w (mkQFileInfo q) = false -> resolved = q) /\
  (forall q, follow w 127 p = Some q -> resolved = p) /\
  ((exists k q, (k <= 126)%nat /\ follow w k p = Some q /\
      isSymLink w (mkQFileInfo q) = false) \/
   (exists q, follow w 127 p = Some q)).
Proof.
  intros resolved. subst resolved. unfold resolveSymLinks.
  split; [|split; [|split; [|split]]].
  - by intros ->.
  - intros Hp. unfold isSymLink. cbn [filePath]. by rewrite Hp.
  - intros k q Hk Hf Hq.
    assert (Hp : isSymLink w (mkQFileInfo p) = true).
    { destruct k as [|k]; [lia|]. simpl in Hf.
      by destruct (isSymLink w (mkQFileInfo p)). }
    rewrite Hp. rewrite (followSymLinks_ends w 128 k p q Hf Hq) by lia.
    destruct (Nat.ltb_spec 0 (128 - 1 - k)); [done|lia].
  - intros q Hf.
    destruct (isSymLink w (mkQFileInfo p)); [|done].
    by rewrite (followSymLinks_exhausted w 127 p q Hf).
  - apply follow_cases.
Qed.

Lemma path_resolution_witness :
  let w := chainWorld 3 in
  let p := "/l" in
  let resolved := (resolveSymLinks w (mkQFileInfo p) p).2 in
  (1 <= 3 <= 126)%nat /\ follow w 3 p = Some "/lxxx" /\
  isSymLink w (mkQFileInfo "/lxxx") = false /\ resolved = "/lxxx".
Proof.
  intros w p resolved.
  assert (H1 : (1 <= 3 <= 126)%nat) by lia.
  assert (H2 : follow w 3 p = Some "/lxxx") by (vm_compute; reflexivity).
  assert (H3 : isSymLink w (mkQFileInfo "/lxxx") = false)
    by (vm_compute; reflexivity).
  split; [exact H1|]. split; [exact H2|]. split; [exact H3|].
  exact (proj1 (proj2 (proj2 (path_resolution w p))) 3%nat "/lxxx" H1 H2 H3).
Defined.

(** C8, as stated, fails twice.  A chain of 127 links ends within 128
    hops, and the resolved path is the name, not the file the chain ends
    in.  And a link to a path with nothing under it does not exist, and
    the resolved path is the path the link names, not the name. *)
Lemma resolution_gives_up_before_128 :
  (exists q, follow (chainWorld 127) 127 "/l" = Some q /\
     isSymLink (chainWorld 127) (mkQFileInfo q) = false /\
     files (chainWorld 127) !! q = Some (File 420 []) /\ q <> "/l" /\
     (resolveSymLinks (chainWorld 127) (mkQFileInfo "/l") "/l").2 = "/l") /\
  (exists_ danglingWorld (mkQFileInfo "/tmp/link") = false /\
   (resolveSymLinks danglingWorld (mkQFileInfo "/tmp/link") "/tmp/link").2
   = "/tmp/nowhere").
Proof.
  split.
  - eexists. split; [vm_compute; reflexivity|]. by vm_compute.
  - by vm_compute.
Qed.

(** The longest chain that is resolved has 126 links. *)
Example chain_of_126_is_resolved :
  follow (chainWorld 126) 126 "/l"
  = Some (resolveSymLinks (chainWorld 126) (mkQFileInfo "/l") "/l").2 /\
  (resolveSymLinks (chainWorld 126) (mkQFileInfo "/l") "/l").2 <> "/l".
Proof. by vm_compute. Qed.

(** C9.  [close] ends the program, whatever the state: the call never
    returns, and neither does a sequence of calls with a [close] in it.
    Among the calls that return, only [commit] takes an open save file
    out of the open state. *)
Theorem close_is_fatal :
  (forall s w, close s w = Fatal "QSaveFile::close called") /\
  (forall before later s w,
     run (before ++ OpClose :: later) s w = Fatal "QSaveFile::close called") /\
  (forall op s w s' w',
     isOpen s = true -> step op s w = Returned (s', w') -> isOpen s' = false ->
     op = OpCommit).
Proof.
  split; [done|]. split.
  - intros before. induction before as [|op before IH]; intros later s w; simpl.
    + done.
    + destruct (keepsGoing op) eqn:Hop.
      * destruct (step_returns op s w Hop) as (s1 & w1 & ->). apply IH.
      * destruct op; try discriminate; simpl; [|done].
        destruct (commit s w) as [[? ?] ?]. apply IH.
  - intros op s w s' w' Hopen H Hclosed.
    destruct (keepsGoing op) eqn:Hop.
    + exfalso. destruct (step_frame op s w s' w' Hop Hopen H) as (Hm & _).
      unfold isOpen in *. rewrite Hm in Hclosed. congruence.
    + destruct op; try discriminate. done.
Qed.

Lemma close_is_fatal_witness :
  let s := (cleanSession docWorld).1 in
  let w := (cleanSession docWorld).2 in
  close s w = Fatal "QSaveFile::close called" /\
  run ([OpWrite hello] ++ OpClose :: [OpCommit]) s w
  = Fatal "QSaveFile::close called" /\
  isOpen s = true /\
  step OpCommit s w = Returned ((commit s w).1.2, (commit s w).2) /\
  isOpen (commit s w).1.2 = false /\
  OpCommit = OpCommit.
Proof.
  intros s w.
  assert (H1 : isOpen s = true) by reflexivity.
  assert (H2 : step OpCommit s w = Returned ((commit s w).1.2, (commit s w).2))
    by (vm_compute; reflexivity).
  assert (H3 : isOpen (commit s w).1.2 = false) by (vm_compute; reflexivity).
  split; [exact (proj1 close_is_fatal s w)|].
  split; [exact (proj1 (proj2 close_is_fatal) [OpWrite hello] [OpCommit] s w)|].
  split; [exact H1|]. split; [exact H2|]. split; [exact H3|].
  exact (proj2 (proj2 close_is_fatal) OpCommit s w _ _ H1 H2 H3).
Defined.

(** C10.  [open] on a save file that is already open returns false and
    hands back the very same object; the world differs by the warning
    only.  So the engine, the latch, the error state and the file name
    are untouched and no staging file is created. *)
Theorem reopen_is_refused (mode : Z) (s : QSaveFile) (w : World) :
  isOpen s = true ->
  open mode s w = (false, s, qWarning (WarnAlreadyOpen (fileName s)) w) /\
  files (open mode s w).2 = files w.
Proof.
  intros Hopen. unfold open. by rewrite Hopen.
Qed.

Lemma reopen_is_refused_witness :
  let s := (cleanSession docWorld).1 in
  let w := (cleanSession docWorld).2 in
  isOpen s = true /\
  (open OpenMode.WriteOnly s w
   = (false, s, qWarning (WarnAlreadyOpen (fileName s)) w) /\
   files (open OpenMode.WriteOnly s w).2 = files w).
Proof.
  intros s w.
  assert (H : isOpen s = true) by reflexivity.
  split; [exact H|]. exact (reopen_is_refused OpenMode.WriteOnly s w H).
Defined.

(** * Beyond the specification *)

(** ** Engines that fail to open *)

Lemma engine_open_false fe mode w fe' w' :
  engine_open fe mode w = (false, fe', w') -> files w' = files w.
Proof.
  unfold engine_open. intros H.
  repeat match type of H with
  | context [match ?x with _ => _ end] => destruct x
  end;
  first [ by apply engine_fail_inv in H as (_ & _ & _ & _ & _ & ->)
        | discriminate ].
Qed.

Lemma engine_open_kind fe mode w ok fe' w' :
  engine_open fe mode w = (ok, fe', w') -> kind fe' = kind fe.
Proof.
  unfold engine_open. intros H.
  repeat match type of H with
  | context [match ?x with _ => _ end] => destruct x eqn:?
  end;
  first [ by apply engine_fail_inv in H as (_ & _ & -> & _)
        | by injection H as <- <- <- ].
Qed.

Lemma openDirectly_false mode s w s' w' :
  openDirectly mode s w = (false, s', w') ->
  files w' = files w /\ openMode s' = openMode s /\
  useTemporaryFile s' = useTemporaryFile s.
Proof.
  unfold openDirectly. intros H.
  destruct (engine_open _ _ w) as [[ok fe] w1] eqn:E.
  destruct ok; [discriminate|]. injection H as <- <-.
  apply engine_open_false in E. done.
Qed.

Lemma engine_open_legacy fe mode w ok fe' w' :
  engine_open fe mode w = (ok, fe', w') -> legacyEngine w' = legacyEngine w.
Proof.
  unfold engine_open. intros H.
  repeat match type of H with
  | context [match ?x with _ => _ end] => destruct x
  end;
  first [ by apply engine_fail_inv in H as (_ & _ & _ & _ & _ & ->)
        | by injection H as <- <- <- ].
Qed.

(** The engine of a file opened in place is the one of a handler or a
    built-in engine where there is one for the name, and the regular
    file engine otherwise. *)
Lemma openDirectly_true mode s w s' w' :
  openDirectly mode s w = (true, s', w') ->
  useTemporaryFile s' = false /\ finalFileName s' = finalFileName s /\
  exists fe, fileEngine s' = Some fe /\
    kind fe = if legacyEngine w (finalFileName s) then LegacyEngine
              else FSFileEngine.
Proof.
  unfold openDirectly. intros H.
  destruct (engine_open _ _ w) as [[ok fe] w1] eqn:E.
  destruct ok; [|discriminate]. injection H as <- <-.
  apply engine_open_kind in E. simpl. split; [done|]. split; [done|].
  exists fe. split; [done|]. rewrite E.
  unfold QAbstractFileEngine_create, createLegacyEngine.
  by destruct (legacyEngine w _).
Qed.

(** The two ways [open] succeeds: with a staging file, which takes that
    no direct write is required, or in place, which takes the fallback. *)
Lemma open_true_cases mode s w s' w' :
  open mode s w = (true, s', w') ->
  (useTemporaryFile s' = true /\
   requiresDirectWrite (host w) (resolved s w) = false) \/
  (useTemporaryFile s' = false /\ directWriteFallback s = true /\
   exists fe, fileEngine s' = Some fe /\
     kind fe = if legacyEngine w (finalFileName s') then LegacyEngine
               else FSFileEngine).
Proof.
  intros H. unfold open in H.
  destruct (isOpen s); [discriminate|].
  destruct (_ =? 0)%Z; [discriminate|].
  destruct (negb _); [discriminate|].
  destruct (_ && _); [discriminate|].
  destruct (isDir _ _); [discriminate|].
  unfold resolved.
  destruct (resolveSymLinks _ _ _) as [info final]. cbn [snd].
  destruct (requiresDirectWrite _ _).
  - right. unfold openWithoutRename in H. simpl in H.
    destruct (directWriteFallback s); [|discriminate].
    destruct (openDirectly _ _ _) as [[ok s1] w1] eqn:E.
    destruct ok; [|discriminate]. injection H as <- <-.
    apply openDirectly_true in E as (? & -> & ?). done.
  - unfold openStaging in H.
    destruct (engine_open _ _ w) as [[ok fe] w1] eqn:E.
    destruct ok; simpl in H.
    + left. split; [|done].
      destruct (exists_ w1 info).
      * destruct (setPermissions _ _ _) as [[? ?] ?] eqn:E2.
        unfold setPermissions in E2. simpl in E2.
        destruct (engine_setPermissions _ _ _) as [[[] ?] ?];
          injection E2 as <- <- <-; by injection H as <- <-.
      * by injection H as <- <-.
    + right. destruct (directWriteFallback s); simpl in H.
      2:{ rewrite !andb_false_r in H. simpl in H.
          destruct (decide _); discriminate. }
      destruct (_ && _ && _ && _).
      * destruct (openDirectly _ _ _) as [[ok2 s2] w2] eqn:E2.
        destruct ok2; [|destruct (decide _); discriminate].
        injection H as <- <-. apply engine_open_legacy in E.
        apply openDirectly_true in E2 as (? & -> & ?). by rewrite <- E.
      * destruct (decide _); discriminate.
Qed.

(** ** The staging file over the files that were there *)

Lemma open_staging_over mode s0 w0 s1 w1 :
  open mode s0 w0 = (true, s1, w1) -> useTemporaryFile s1 = true ->
  StagingOver (files w0) (stagingPerms s0 w0) [] s1 w1 /\
  finalFileName s1 = finalFileName (resolved s0 w0) /\
  writeFaults w1 = writeFaults w0 /\ renameFault w1 = renameFault w0.
Proof.
  intros H Ht. apply open_true_inv in H as (_ & _ & _ & _ & _ & _ & _ & Hst).
  destruct (Hst Ht) as (Hfresh & Hf & Hfe & ->). clear Hst.
  split; [|done]. eexists. split; [exact Hfe|]. done.
Qed.

Lemma Frame_staging_over m pm d s w s' w' :
  Frame s w s' w' -> StagingOver m pm d s w ->
  exists d', StagingOver m pm d' s' w'.
Proof.
  intros (_ & _ & _ & He) (fe & Hfe & Hfresh & Hfiles).
  rewrite Hfe in He. destruct He as [(fe' & Hfe' & Hp) Hw].
  destruct Hw as [Hw | [data Hw]].
  - exists d, fe'. rewrite Hp, Hw. done.
  - exists (d ++ data)%list, fe'. rewrite Hp, Hw, Hfiles.
    split; [done|]. split; [done|]. by rewrite alter_insert_eq.
Qed.

Lemma run_staging_over m pm ops : forall d s w s' w',
  forallb keepsGoing ops = true ->
  run ops s w = Returned (s', w') ->
  SessionInv s w -> StagingOver m pm d s w ->
  SessionInv s' w' /\ (exists d', StagingOver m pm d' s' w') /\
  useTemporaryFile s' = useTemporaryFile s /\
  finalFileName s' = finalFileName s.
Proof.
  induction ops as [|op ops IH]; intros d s w s' w' Hops H Hi Hst; simpl in H.
  - injection H as <- <-. eauto.
  - simpl in Hops. apply andb_prop in Hops as [Hop Hops].
    destruct (step op s w) as [[s1 w1]|] eqn:E; [|done].
    assert (Hfr : Frame s w s1 w1).
    { eapply step_frame; [done| |done]. by destruct Hi. }
    destruct (Frame_staging_over _ _ _ _ _ _ _ Hfr Hst) as [d1 Hst1].
    destruct (IH d1 s1 w1 s' w' Hops H) as (? & ? & Ht & Hf);
      eauto with savefile.
    destruct Hfr as (_ & Ht1 & Hf1 & _).
    split; [done|]. split; [done|]. split; congruence.
Qed.

Lemma commit_staging_over m pm d s w r s' w' :
  SessionInv s w -> useTemporaryFile s = true -> StagingOver m pm d s w ->
  commit s w = (r, s', w') ->
  files w' = if r then <[finalFileName s := File pm d]> m else m.
Proof.
  intros (Hopen & fe & Hfe & _) Ht (fe' & Hfe' & Hfresh & Hfiles) Hc.
  rewrite Hfe in Hfe'. injection Hfe' as <-.
  assert (Hgone : delete (enginePath fe) (files w) = m).
  { by rewrite Hfiles, delete_insert_eq, delete_id. }
  destruct r.
  - destruct (commit_staging s w fe Hopen Hfe Ht) as [Hl Hr].
    destruct (decide (writeError s = NoError)) as [Hn|Hn].
    + destruct (engine_renameOverwrite fe (finalFileName s) w)
        as [[ok fe1] w1] eqn:E.
      specialize (Hr Hn _ _ _ eq_refl). destruct ok.
      * destruct Hr as (s1 & Hc1 & _). rewrite Hc1 in Hc. injection Hc as <- <-.
        eapply renameOverwrite_true in E;
          [|by rewrite Hfiles, lookup_insert_eq].
        by rewrite E, Hgone.
      * destruct Hr as (s1 & Hc1 & _). congruence.
    + destruct (Hl Hn) as (s1 & Hc1 & _). congruence.
  - apply (commit_false_discards s w fe Hopen Hfe) in Hc as [-> _]; done.
Qed.

(** ** A closed save file *)

Lemma closed_mode s : isOpen s = false -> openMode s = OpenMode.NotOpen.
Proof.
  unfold isOpen. destruct (Z.eqb_spec (openMode s) OpenMode.NotOpen); done.
Qed.

Lemma afterClose_closed s :
  isOpen (afterClose s) = false /\ fileEngine (afterClose s) = None.
Proof.
  unfold afterClose, QFileDevice_close. by destruct (isOpen s) eqn:E.
Qed.

Lemma closed_is_inert s w :
  isOpen s = false -> fileEngine s = None ->
  commit s w = (false, s, w) /\ destroy s w = w /\ cancelWriting s = s /\
  forall data, write data s w = (-1, s, w).
Proof.
  intros Hopen Hfe. repeat split.
  - unfold commit. by rewrite Hfe.
  - unfold destroy, QFileDevice_close. by rewrite Hopen, Hfe.
  - unfold cancelWriting. by rewrite Hopen.
  - intros data. unfold write. by rewrite (closed_mode _ Hopen).
Qed.

(** ** Writes that go through *)

Lemma write_faultless data m pm d s w :
  Z.land (openMode s) OpenMode.WriteOnly <> 0 -> writeError s = NoError ->
  writeFaults w = [] -> StagingOver m pm d s w ->
  exists s' w', write data s w = (Z.of_nat (length data), s', w') /\
    openMode s' = openMode s /\ writeError s' = NoError /\
    writeFaults w' = [] /\ renameFault w' = renameFault w /\
    StagingOver m pm (d ++ data) s' w'.
Proof.
  intros Hm Hl Hw (fe & Hfe & Hfresh & Hfiles).
  unfold write. destruct (Z.eqb_spec (Z.land (openMode s) OpenMode.WriteOnly) 0);
    [done|].
  unfold writeData, QFileDevice_writeData, engine_write.
  rewrite bool_decide_eq_true_2 by done. simpl. rewrite Hfe, Hw. simpl.
  destruct (Z.ltb_spec (Z.of_nat (length data)) 0); [lia|]. simpl.
  eexists _, _. split; [reflexivity|]. simpl.
  repeat split; try done.
  exists fe. rewrite Hfiles, alter_insert_eq. done.
Qed.


Lemma faultless_run m pm final ds : forall d s w,
  StagingOver m pm d s w -> SessionInv s w ->
  Z.land (openMode s) OpenMode.WriteOnly <> 0 -> writeError s = NoError ->
  writeFaults w = [] -> renameFault w = None ->
  useTemporaryFile s = true -> finalFileName s = final ->
  (forall p, m !! final <> Some (Dir p)) ->
  exists s2 w2 s3 w3,
    run (map OpWrite ds) s w = Returned (s2, w2) /\
    commit s2 w2 = (true, s3, w3) /\
    files w3 = <[final := File pm (d ++ concat ds)]> m.
Proof.
  induction ds as [|data ds IH]; intros d s w Hst Hi Hw Hl Hwf Hrf Ht Hf Hnd.
  - simpl. rewrite app_nil_r. exists s, w.
    destruct Hi as (Hopen & fe & Hfe & Hne).
    destruct Hst as (fe' & Hfe' & Hfresh & Hfiles).
    rewrite Hfe in Hfe'. injection Hfe' as <-.
    specialize (Hne Ht). rewrite Hf in Hne.
    rewrite (commit_unfold s w fe Hopen Hfe), Ht.
    rewrite bool_decide_eq_true_2 by done. simpl.
    unfold engine_renameOverwrite.
    rewrite Hrf, Hf, Hfiles, lookup_insert_eq, lookup_insert_ne by done.
    specialize (Hnd).
    destruct (m !! final) as [[| |]|] eqn:E;
      try (by destruct (Hnd perms));
      simpl; (eexists _, _; split; [done|]; split; [reflexivity|]; simpl;
              by rewrite delete_insert_eq, delete_id).
  - destruct (write_faultless data m pm d s w Hw Hl Hwf Hst)
      as (s' & w' & Hwr & Hm' & Hl' & Hwf' & Hrf' & Hst').
    assert (Hstep : step (OpWrite data) s w = Returned (s', w')).
    { simpl. by rewrite Hwr. }
    assert (Hfr : Frame s w s' w').
    { eapply (step_frame (OpWrite data)); [done| |done]. by destruct Hi. }
    pose proof (Frame_inv _ _ _ _ Hfr Hi) as Hi'.
    destruct Hfr as (_ & Ht' & Hf' & _).
    destruct (IH (d ++ data)%list s' w')
      as (s2 & w2 & s3 & w3 & Hrun & Hc & Hfiles); try congruence.
    exists s2, w2, s3, w3. split; [|split; [done|]].
    + simpl. by rewrite Hwr.
    + simpl. by rewrite Hfiles, app_assoc.
Qed.

(** ** The save file from construction to destruction *)

(** X1.  A save through a staging file that is given up leaves nothing
    behind.  From a successful [open] over any calls that leave the
    session going to the destructor: the destructor removes the staging
    file, and the files are those from before [open]. *)
Theorem destructor_restores_files mode ops s0 w0 s1 w1 s2 w2 :
  open mode s0 w0 = (true, s1, w1) -> useTemporaryFile s1 = true ->
  forallb keepsGoing ops = true ->
  run ops s1 w1 = Returned (s2, w2) ->
  (exists fe, fileEngine s2 = Some fe /\ enginePath fe <> finalFileName s1 /\
     is_Some (files w2 !! enginePath fe) /\
     files (destroy s2 w2) !! enginePath fe = None) /\
  files (destroy s2 w2) = files w0.
Proof.
  intros Ho Ht Hops Hrun.
  pose proof (Session_opened_inv _ _ _ _ _ Ho) as Hi.
  apply open_staging_over in Ho as (Hst & _); [|done].
  destruct (run_staging_over _ _ _ _ _ _ _ _ Hops Hrun Hi Hst)
    as ((Hopen & fe & Hfe & Hne) & [d (fe' & Hfe' & Hfresh & Hfiles)]
        & Ht2 & Hf2).
  rewrite Hfe in Hfe'. injection Hfe' as <-.
  rewrite (destroy_discards s2 w2 fe Hopen Hfe).
  split.
  - exists fe. split; [done|]. split; [|split].
    + rewrite <- Hf2. apply Hne. congruence.
    + rewrite Hfiles, lookup_insert_eq. eauto.
    + apply lookup_delete_eq.
  - by rewrite Hfiles, delete_insert_eq, delete_id.
Qed.

Lemma destructor_restores_files_witness :
  let s0 := new_QSaveFile "/tmp/doc.txt" in
  let ops := [OpWrite hello; OpCancelWriting; OpWrite hello] in
  let o := open OpenMode.WriteOnly s0 docWorld in
  let a := after ops o.1.2 o.2 in
  o = (true, o.1.2, o.2) /\ useTemporaryFile o.1.2 = true /\
  forallb keepsGoing ops = true /\
  run ops o.1.2 o.2 = Returned (a.1, a.2) /\
  ((exists fe, fileEngine a.1 = Some fe /\
      enginePath fe <> finalFileName o.1.2 /\
      is_Some (files a.2 !! enginePath fe) /\
      files (destroy a.1 a.2) !! enginePath fe = None) /\
   files (destroy a.1 a.2) = files docWorld).
Proof.
  intros s0 ops o a.
  assert (Ho : o = (true, o.1.2, o.2)) by (by vm_compute).
  assert (Ht : useTemporaryFile o.1.2 = true) by (by vm_compute).
  assert (Hops : forallb keepsGoing ops = true) by reflexivity.
  assert (Hrun : run ops o.1.2 o.2 = Returned (a.1, a.2)) by (by vm_compute).
  split; [exact Ho|]. split; [exact Ht|]. split; [exact Hops|].
  split; [exact Hrun|].
  exact (destructor_restores_files OpenMode.WriteOnly ops s0 docWorld
           _ _ _ _ Ho Ht Hops Hrun).
Defined.

(** X2.  [commit] ends the session whatever it returns: the device is
    closed and the engine is gone, so that a second [commit] returns
    false and changes nothing, the destructor removes nothing,
    [cancelWriting] does nothing and no write is taken. *)
Theorem commit_ends_session s w r s1 w1 :
  Session s w -> commit s w = (r, s1, w1) ->
  isOpen s1 = false /\ fileEngine s1 = None /\
  commit s1 w1 = (false, s1, w1) /\ destroy s1 w1 = w1 /\
  cancelWriting s1 = s1 /\
  forall data, write data s1 w1 = (-1, s1, w1).
Proof.
  intros Hs Hc. session_inv Hs.
  assert (Hclosed : isOpen s1 = false /\ fileEngine s1 = None).
  { destruct (afterClose_closed s) as [Ho Hn].
    rewrite (commit_unfold s w fe Hopen Hfe) in Hc.
    destruct (useTemporaryFile s).
    - destruct (negb _).
      + by injection Hc as <- <- <-.
      + destruct (engine_renameOverwrite _ _ _) as [[ok fe1] w2].
        destruct ok; simpl in Hc; by injection Hc as <- <- <-.
    - by injection Hc as <- <- <-. }
  destruct Hclosed as [Ho Hn].
  split; [done|]. split; [done|]. by apply closed_is_inert.
Qed.

Lemma commit_ends_session_witness :
  let s := (cleanSession noRenameWorld).1 in
  let w := (cleanSession noRenameWorld).2 in
  let s1 := (commit s w).1.2 in
  let w1 := (commit s w).2 in
  Session s w /\ commit s w = (false, s1, w1) /\
  (isOpen s1 = false /\ fileEngine s1 = None /\
   commit s1 w1 = (false, s1, w1) /\ destroy s1 w1 = w1 /\
   cancelWriting s1 = s1 /\
   forall data, write data s1 w1 = (-1, s1, w1)).
Proof.
  intros s w s1 w1.
  assert (Hs : Session s w) by (subst s w; sample_session).
  assert (Hc : commit s w = (false, s1, w1)) by (by vm_compute).
  split; [exact Hs|]. split; [exact Hc|].
  exact (commit_ends_session s w false s1 w1 Hs Hc).
Defined.

(** X3.  An [open] that returns false has created, changed and removed
    no file, and the object is as open and as staged as it was. *)
Theorem failed_open_changes_no_file mode s w s' w' :
  open mode s w = (false, s', w') ->
  files w' = files w /\ openMode s' = openMode s /\
  useTemporaryFile s' = useTemporaryFile s.
Proof.
  intros H. unfold open in H.
  destruct (isOpen s); [by injection H as <- <-|].
  destruct (_ =? 0)%Z; [by injection H as <- <-|].
  destruct (negb _); [by injection H as <- <-|].
  destruct (_ && _); [by injection H as <- <-|].
  destruct (isDir _ _); [by injection H as <- <-|].
  destruct (resolveSymLinks _ _ _) as [info final].
  destruct (requiresDirectWrite _ _).
  - unfold openWithoutRename in H. simpl in H.
    destruct (directWriteFallback s); [|by injection H as <- <-].
    destruct (openDirectly _ _ _) as [[ok s1] w1] eqn:E.
    destruct ok; [discriminate|]. injection H as <- <-.
    by apply openDirectly_false in E as (-> & Hm & Ht).
  - unfold openStaging in H.
    destruct (engine_open _ _ w) as [[ok fe] w1] eqn:E.
    destruct ok; simpl in H.
    + destruct (exists_ w1 info); [|discriminate].
      destruct (setPermissions _ _ _) as [[? ?] ?]. discriminate.
    + apply engine_open_false in E.
      destruct (_ && _ && _ && _).
      * destruct (openDirectly _ _ _) as [[ok2 s2] w2] eqn:E2.
        destruct ok2; [discriminate|].
        apply openDirectly_false in E2 as (Hf & Hm & Ht).
        destruct (decide _); injection H as <- <-; simpl;
          rewrite Hf, Hm, Ht; done.
      * destruct (decide _); injection H as <- <-; done.
Qed.

Lemma failed_open_changes_no_file_witness :
  let s := new_QSaveFile "/ro/doc.txt" in
  let r := open OpenMode.WriteOnly s deniedWorld in
  r = (false, r.1.2, r.2) /\
  (files r.2 = files deniedWorld /\ openMode r.1.2 = openMode s /\
   useTemporaryFile r.1.2 = useTemporaryFile s).
Proof.
  intros s r.
  assert (H : r = (false, r.1.2, r.2)) by (by vm_compute).
  split; [exact H|].
  exact (failed_open_changes_no_file OpenMode.WriteOnly s deniedWorld _ _ H).
Defined.

(** X4.  With the direct write fallback off, an [open] that succeeds has
    a staging file: a temporary file engine on a file that was not there
    before, and nothing else is different.  The destination is not
    touched. *)
Theorem open_without_fallback_stages mode s w s' w' :
  open mode s w = (true, s', w') -> directWriteFallback s = false ->
  useTemporaryFile s' = true /\
  exists fe, fileEngine s' = Some fe /\ kind fe = TemporaryFileEngine /\
    enginePath fe <> finalFileName s' /\
    files w !! enginePath fe = None /\
    files w' = <[enginePath fe := File (stagingPerms s w) []]> (files w) /\
    files w' !! finalFileName s' = files w !! finalFileName s'.
Proof.
  intros H Hfb.
  assert (Ht : useTemporaryFile s' = true).
  { destruct (open_true_cases _ _ _ _ _ H) as [[Ht _]|(_ & Hd & _)];
      [done|congruence]. }
  split; [done|].
  apply open_true_inv in H as (_ & _ & _ & _ & _ & _ & _ & Hst).
  destruct (Hst Ht) as (Hfresh & Hf & Hfe & ->). clear Hst.
  eexists. split; [exact Hfe|]. simpl. rewrite Hf.
  split; [done|]. split; [apply staging_name_ne|]. split; [done|].
  split; [done|]. apply lookup_insert_ne, staging_name_ne.
Qed.

Lemma open_without_fallback_stages_witness :
  let s := new_QSaveFile "/tmp/doc.txt" in
  let r := open OpenMode.WriteOnly s docWorld in
  r = (true, r.1.2, r.2) /\ directWriteFallback s = false /\
  (useTemporaryFile r.1.2 = true /\
   exists fe, fileEngine r.1.2 = Some fe /\ kind fe = TemporaryFileEngine /\
     enginePath fe <> finalFileName r.1.2 /\
     files docWorld !! enginePath fe = None /\
     files r.2
     = <[enginePath fe := File (stagingPerms s docWorld) []]> (files docWorld) /\
     files r.2 !! finalFileName r.1.2 = files docWorld !! finalFileName r.1.2).
Proof.
  intros s r.
  assert (H : r = (true, r.1.2, r.2)) by (by vm_compute).
  assert (Hfb : directWriteFallback s = false) by reflexivity.
  split; [exact H|]. split; [exact Hfb|].
  exact (open_without_fallback_stages OpenMode.WriteOnly s docWorld _ _ H Hfb).
Defined.

(** X5.  A save through a staging file is all or nothing.  From a
    successful [open] over any calls that leave the session going to
    [commit]: if [commit] returns false, the files are those from before
    [open]; if it returns true, the one difference is the destination,
    which is a regular file with the permission bits the staging file was
    given. *)
Theorem save_is_all_or_nothing mode ops s0 w0 s1 w1 s2 w2 r s3 w3 :
  open mode s0 w0 = (true, s1, w1) -> useTemporaryFile s1 = true ->
  forallb keepsGoing ops = true ->
  run ops s1 w1 = Returned (s2, w2) ->
  commit s2 w2 = (r, s3, w3) ->
  if r
  then exists d,
    files w3 = <[finalFileName s1 := File (stagingPerms s0 w0) d]> (files w0)
  else files w3 = files w0.
Proof.
  intros Ho Ht Hops Hrun Hc.
  pose proof (Session_opened_inv _ _ _ _ _ Ho) as Hi.
  apply open_staging_over in Ho as (Hst & _); [|done].
  destruct (run_staging_over _ _ _ _ _ _ _ _ Hops Hrun Hi Hst)
    as (Hi2 & [d Hst2] & Ht2 & Hf2).
  rewrite Ht in Ht2.
  rewrite (commit_staging_over _ _ _ _ _ _ _ _ Hi2 Ht2 Hst2 Hc).
  destruct r; [|done]. exists d. by rewrite Hf2.
Qed.

Lemma save_is_all_or_nothing_witness :
  let s0 := new_QSaveFile "/tmp/doc.txt" in
  let ops := [OpWrite hello; OpSetFileName "/tmp/other.txt"; OpWrite hello] in
  let o := open OpenMode.WriteOnly s0 fullDiskWorld in
  let a := after ops o.1.2 o.2 in
  let c := commit a.1 a.2 in
  o = (true, o.1.2, o.2) /\ useTemporaryFile o.1.2 = true /\
  forallb keepsGoing ops = true /\
  run ops o.1.2 o.2 = Returned (a.1, a.2) /\
  c = (false, c.1.2, c.2) /\
  files c.2 = files fullDiskWorld.
Proof.
  intros s0 ops o a c.
  assert (Ho : o = (true, o.1.2, o.2)) by (by vm_compute).
  assert (Ht : useTemporaryFile o.1.2 = true) by (by vm_compute).
  assert (Hops : forallb keepsGoing ops = true) by reflexivity.
  assert (Hrun : run ops o.1.2 o.2 = Returned (a.1, a.2)) by (by vm_compute).
  assert (Hc : c = (false, c.1.2, c.2)) by (by vm_compute).
  split; [exact Ho|]. split; [exact Ht|]. split; [exact Hops|].
  split; [exact Hrun|]. split; [exact Hc|].
  exact (save_is_all_or_nothing OpenMode.WriteOnly ops s0 fullDiskWorld
           _ _ _ _ false _ _ Ho Ht Hops Hrun Hc).
Defined.

(** X6.  Where no write and no replacement fails and the destination is
    no directory, a save through a staging file goes through: every
    write is taken in full, [commit] returns true, and the destination
    then holds the bytes of the writes in their order, and nothing else
    is different from before [open]. *)
Theorem faultless_save_writes_all mode s0 w0 s1 w1 ds :
  open mode s0 w0 = (true, s1, w1) -> useTemporaryFile s1 = true ->
  writeFaults w0 = [] -> renameFault w0 = None ->
  (forall pm, files w0 !! finalFileName s1 <> Some (Dir pm)) ->
  exists s2 w2 s3 w3,
    run (map OpWrite ds) s1 w1 = Returned (s2, w2) /\
    commit s2 w2 = (true, s3, w3) /\
    files w3
    = <[finalFileName s1 := File (stagingPerms s0 w0) (concat ds)]> (files w0).
Proof.
  intros Ho Ht Hwf Hrf Hnd.
  pose proof (Session_opened_inv _ _ _ _ _ Ho) as Hi.
  pose proof (open_true_inv _ _ _ _ _ Ho)
    as (_ & _ & Hm & Hw & _ & Hl & _ & _).
  apply open_staging_over in Ho as (Hst & _ & Hwf1 & Hrf1); [|done].
  rewrite Hwf in Hwf1. rewrite Hrf in Hrf1. rewrite <- Hm in Hw.
  exact (faultless_run _ _ _ ds [] s1 w1 Hst Hi Hw Hl Hwf1 Hrf1 Ht eq_refl Hnd).
Qed.

Lemma faultless_save_writes_all_witness :
  let s0 := new_QSaveFile "/tmp/doc.txt" in
  let o := open OpenMode.WriteOnly s0 docWorld in
  o = (true, o.1.2, o.2) /\ useTemporaryFile o.1.2 = true /\
  writeFaults docWorld = [] /\ renameFault docWorld = None /\
  (forall pm, files docWorld !! finalFileName o.1.2 <> Some (Dir pm)) /\
  exists s2 w2 s3 w3,
    run (map OpWrite [hello; hello]) o.1.2 o.2 = Returned (s2, w2) /\
    commit s2 w2 = (true, s3, w3) /\
    files w3
    = <[finalFileName o.1.2 :=
          File (stagingPerms s0 docWorld) (concat [hello; hello])]>
        (files docWorld).
Proof.
  intros s0 o.
  assert (Ho : o = (true, o.1.2, o.2)) by (by vm_compute).
  assert (Ht : useTemporaryFile o.1.2 = true) by (by vm_compute).
  assert (Hwf : writeFaults docWorld = []) by reflexivity.
  assert (Hrf : renameFault docWorld = None) by reflexivity.
  assert (Hnd : forall pm, files docWorld !! finalFileName o.1.2 <> Some (Dir pm))
    by (intros pm; by vm_compute).
  split; [exact Ho|]. split; [exact Ht|]. split; [exact Hwf|].
  split; [exact Hrf|]. split; [exact Hnd|].
  exact (faultless_save_writes_all OpenMode.WriteOnly s0 docWorld _ _
           [hello; hello] Ho Ht Hwf Hrf Hnd).
Defined.

(** X7.  Unless a direct write is required and the fallback is on, an
    [open] that fails for another reason than its mode never leaves
    [UnspecifiedError]: the engine's unspecified error is reported as
    [OpenError].  The engine is gone, or [open] has not come to make
    one. *)
Theorem failed_open_names_its_error mode s w s' w' :
  host w = Unix \/ directWriteFallback s = false ->
  isOpen s = false ->
  Z.land mode OpenMode.WriteOnly <> 0 -> Z.land mode unsupportedFlags = 0 ->
  open mode s w = (false, s', w') ->
  error s' <> UnspecifiedError /\
  (fileEngine s' = None \/ fileEngine s' = fileEngine s).
Proof.
  intros Hcfg Hopen Hw H0 H. unfold open in H. rewrite Hopen in H.
  assert (H3 : Z.land mode (Z.lor OpenMode.ReadOnly OpenMode.WriteOnly) <> 0).
  { rewrite Z.land_lor_distr_r. intros E.
    by apply Z.lor_eq_0_iff in E as [_ E]. }
  destruct (Z.eqb_spec (Z.land mode (Z.lor OpenMode.ReadOnly OpenMode.WriteOnly)) 0);
    [done|].
  fold unsupportedFlags in H. rewrite H0 in H.
  change (negb (0 =? 0)%Z) with false in H. cbv iota in H.
  destruct (_ && _); [injection H as <- <-; simpl; by auto|].
  destruct (isDir _ _); [injection H as <- <-; simpl; by auto|].
  destruct (resolveSymLinks _ _ _) as [info final].
  destruct (requiresDirectWrite _ _) eqn:R.
  - assert (Hfb : directWriteFallback s = false).
    { destruct Hcfg as [Hu|]; [|done].
      unfold requiresDirectWrite in R. by rewrite Hu in R. }
    unfold openWithoutRename in H. simpl in H. rewrite Hfb in H.
    injection H as <- <-. simpl. auto.
  - unfold openStaging in H.
    destruct (engine_open _ _ w) as [[ok fe] w1] eqn:E.
    destruct ok; simpl in H.
    + destruct (exists_ w1 info); [|discriminate].
      destruct (setPermissions _ _ _) as [[? ?] ?]. discriminate.
    + destruct (_ && _ && _ && _).
      * destruct (openDirectly _ _ _) as [[ok2 s2] w2] eqn:E2.
        destruct ok2; [discriminate|].
        destruct (decide (engineError s2 = UnspecifiedError));
          injection H as <- <-; simpl; auto.
      * destruct (decide (fileError fe = UnspecifiedError));
          injection H as <- <-; simpl; auto.
Qed.

Lemma failed_open_names_its_error_witness :
  let s := new_QSaveFile "/ro/doc.txt" in
  let r := open OpenMode.WriteOnly s deniedWorld in
  (host deniedWorld = Unix \/ directWriteFallback s = false) /\
  isOpen s = false /\
  Z.land OpenMode.WriteOnly OpenMode.WriteOnly <> 0 /\
  Z.land OpenMode.WriteOnly unsupportedFlags = 0 /\
  r = (false, r.1.2, r.2) /\
  (error r.1.2 <> UnspecifiedError /\
   (fileEngine r.1.2 = None \/ fileEngine r.1.2 = fileEngine s)).
Proof.
  intros s r.
  assert (H1 : host deniedWorld = Unix \/ directWriteFallback s = false)
    by (left; reflexivity).
  assert (H2 : isOpen s = false) by reflexivity.
  assert (H3 : Z.land OpenMode.WriteOnly OpenMode.WriteOnly <> 0)
    by (by vm_compute).
  assert (H4 : Z.land OpenMode.WriteOnly unsupportedFlags = 0) by reflexivity.
  assert (H5 : r = (false, r.1.2, r.2)) by (by vm_compute).
  split; [exact H1|]. split; [exact H2|]. split; [exact H3|].
  split; [exact H4|]. split; [exact H5|].
  exact (failed_open_names_its_error OpenMode.WriteOnly s deniedWorld _ _
           H1 H2 H3 H4 H5).
Defined.

(** X8.  On Android a content URL is never staged.  If [open] succeeds
    for one, the fallback is on and the file is opened in place, by the
    engine [QAbstractFileEngine::create] makes for the name: that of a
    handler or a built-in engine where one knows the name, the regular
    file engine otherwise.  [commit] then returns true without touching
    a file. *)
Theorem content_url_is_written_in_place mode s w s' w' :
  host w = Android -> String.prefix "content://" (fileName s) = true ->
  open mode s w = (true, s', w') ->
  directWriteFallback s = true /\ useTemporaryFile s' = false /\
  (exists fe, fileEngine s' = Some fe /\
     kind fe = if legacyEngine w (finalFileName s') then LegacyEngine
               else FSFileEngine) /\
  exists s'', commit s' w' = (true, s'', w').
Proof.
  intros Hh Hp H.
  pose proof (Session_opened_inv _ _ _ _ _ H) as (Hopen & fe & Hfe & _).
  destruct (open_true_cases _ _ _ _ _ H) as [[_ R]|(Ht & Hd & He)].
  - unfold requiresDirectWrite in R. rewrite Hh in R. simpl in R.
    unfold unsetError, setError in R. simpl in R. congruence.
  - split; [done|]. split; [done|]. split; [done|].
    destruct (commit_direct s' w' fe Hopen Hfe Ht) as (s'' & Hc & _). eauto.
Qed.

Lemma content_url_is_written_in_place_witness :
  let s := setDirectWriteFallback true (new_QSaveFile "content://docs/1") in
  let r := open OpenMode.WriteOnly s androidWorld in
  host androidWorld = Android /\
  String.prefix "content://" (fileName s) = true /\
  r = (true, r.1.2, r.2) /\
  (directWriteFallback s = true /\ useTemporaryFile r.1.2 = false /\
   (exists fe, fileEngine r.1.2 = Some fe /\
      kind fe = if legacyEngine androidWorld (finalFileName r.1.2)
                then LegacyEngine else FSFileEngine) /\
   exists s'', commit r.1.2 r.2 = (true, s'', r.2)).
Proof.
  intros s r.
  assert (H1 : host androidWorld = Android) by reflexivity.
  assert (H2 : String.prefix "content://" (fileName s) = true) by reflexivity.
  assert (H3 : r = (true, r.1.2, r.2)) by (by vm_compute).
  split; [exact H1|]. split; [exact H2|]. split; [exact H3|].
  exact (content_url_is_written_in_place OpenMode.WriteOnly s androidWorld _ _
           H1 H2 H3).
Defined.

(** X9.  On Unix the save file writes in place only where the staging
    file could not be made for lack of permission: the fallback is on,
    and the creation of the staging file has failed with [OpenError] and
    [EACCES]. *)
Theorem unix_fallback_needs_eacces mode s w s' w' :
  host w = Unix -> open mode s w = (true, s', w') ->
  useTemporaryFile s' = false ->
  directWriteFallback s = true /\
  exists f,
    openFault w (finalFileName s' +:+ "." +:+ tmpSuffix w) = Some f /\
    f_error f = OpenError /\ f_errno f = EACCES.
Proof.
  intros Hh H Ht.
  destruct (open_true_cases _ _ _ _ _ H) as [[Ht' _]|(_ & Hd & _)];
    [congruence|].
  split; [done|]. unfold open in H.
  destruct (isOpen s); [discriminate|].
  destruct (_ =? 0)%Z; [discriminate|].
  destruct (negb _); [discriminate|].
  destruct (_ && _); [discriminate|].
  destruct (isDir _ _); [discriminate|].
  destruct (resolveSymLinks _ _ _) as [info final].
  assert (R : forall x, requiresDirectWrite (host w) x = false).
  { intros x. unfold requiresDirectWrite. by rewrite Hh. }
  rewrite R in H. unfold openStaging in H.
  destruct (engine_open _ _ w) as [[ok fe] w1] eqn:E.
  unfold engine_open in E. simpl in E.
  destruct (openFault w (final +:+ "." +:+ tmpSuffix w)) as [f|] eqn:F.
  - apply engine_fail_inv in E as (-> & _ & _ & He & _ & ->). simpl in H.
    rewrite He in H.
    destruct (bool_decide (f_error f = OpenError)) eqn:B1.
    2:{ rewrite andb_false_r in H. simpl in H.
        destruct (decide _); discriminate. }
    destruct (Z.eqb_spec (f_errno f) EACCES) as [B2|B2].
    2:{ rewrite andb_false_r in H. destruct (decide _); discriminate. }
    apply bool_decide_eq_true_1 in B1.
    destruct (_ && _ && _ && _); [|destruct (decide _); discriminate].
    destruct (openDirectly _ _ _) as [[ok2 s2] w2] eqn:E2.
    destruct ok2; [|destruct (decide _); discriminate].
    injection H as <- <-. unfold openDirectly in E2.
    destruct (engine_open _ _ _) as [[ok3 fe3] w3].
    destruct ok3; [|discriminate]. injection E2 as <- <-. simpl.
    exists f. done.
  - exfalso. destruct (files w !! _).
    + apply engine_fail_inv in E as (-> & _ & _ & _ & _ & ->). simpl in H.
      change (17 =? EACCES)%Z with false in H. rewrite andb_false_r in H.
      destruct (decide _); discriminate.
    + injection E as <- <- <-. simpl in H.
      destruct (exists_ _ info).
      * destruct (setPermissions _ _ _) as [[? ?] ?] eqn:E2.
        unfold setPermissions in E2. simpl in E2.
        destruct (engine_setPermissions _ _ _) as [[[] ?] ?];
          injection E2 as <- <- <-; injection H as <- <-; discriminate.
      * injection H as <- <-. discriminate.
Qed.

Lemma unix_fallback_needs_eacces_witness :
  let s := setDirectWriteFallback true (new_QSaveFile "/ro/doc.txt") in
  let r := open OpenMode.WriteOnly s roWorld in
  host roWorld = Unix /\ r = (true, r.1.2, r.2) /\
  useTemporaryFile r.1.2 = false /\
  (directWriteFallback s = true /\
   exists f,
     openFault roWorld (finalFileName r.1.2 +:+ "." +:+ tmpSuffix roWorld)
     = Some f /\
     f_error f = OpenError /\ f_errno f = EACCES).
Proof.
  intros s r.
  assert (H1 : host roWorld = Unix) by reflexivity.
  assert (H2 : r = (true, r.1.2, r.2)) by (by vm_compute).
  assert (H3 : useTemporaryFile r.1.2 = false) by (by vm_compute).
  split; [exact H1|]. split; [exact H2|]. split; [exact H3|].
  exact (unix_fallback_needs_eacces OpenMode.WriteOnly s roWorld _ _ H1 H2 H3).
Defined.

(** * The file engine base class *)

(** ** Directory paths of an iterator *)

Lemma append_assoc (a b c : string) : (a +:+ b) +:+ c = a +:+ b +:+ c.
Proof.
  induction a as [|x a IH]; [done|].
  change (String x ((a +:+ b) +:+ c) = String x (a +:+ b +:+ c)).
  by rewrite IH.
Qed.

Lemma endsWithSlash_append (p : string) : endsWithSlash (p +:+ "/") = true.
Proof.
  induction p as [|c p IH]; [done|].
  destruct p as [|c' p]; [done|]. exact IH.
Qed.

Lemma append_nonempty (p x : string) :
  x <> EmptyString -> String.eqb (p +:+ x) EmptyString = false.
Proof. intros Hx. destruct p; [by destruct x|done]. Qed.

(** X10.  [appendSlashIfNeeded] is idempotent: a path it has returned is
    returned as it is. *)
Theorem appendSlashIfNeeded_idempotent o p :
  appendSlashIfNeeded o (appendSlashIfNeeded o p) = appendSlashIfNeeded o p.
Proof.
  unfold appendSlashIfNeeded at 2 3.
  destruct (_ && _ && _) eqn:E; [|unfold appendSlashIfNeeded; by rewrite E].
  unfold appendSlashIfNeeded.
  by rewrite endsWithSlash_append, andb_false_r.
Qed.

(** X11.  What [appendSlashIfNeeded] returns is the path or the path
    with one slash after it, and it ends with a slash exactly when the
    path did, or was not empty and, on Android, no content URL. *)
Theorem appendSlashIfNeeded_result o p :
  (appendSlashIfNeeded o p = p \/ appendSlashIfNeeded o p = p +:+ "/") /\
  endsWithSlash (appendSlashIfNeeded o p)
  = endsWithSlash p
    || negb (String.eqb p EmptyString)
       && (if Q_OS_ANDROID o then negb (String.prefix "content:/" p) else true).
Proof.
  unfold appendSlashIfNeeded.
  destruct (String.eqb p EmptyString) eqn:E1; simpl.
  { split; [by left|]. by rewrite orb_false_r. }
  destruct (endsWithSlash p) eqn:E2; simpl; [split; [by left|done]|].
  destruct (if Q_OS_ANDROID o then _ else _) eqn:E3.
  - split; [by right|]. apply endsWithSlash_append.
  - split; [by left|done].
Qed.

(** X12.  An iterator made for a directory with or without the slash at
    its end gives the same path for an entry: the directory, one slash,
    the name. *)
Theorem iterator_joins_with_one_slash o p filters nameFilters name :
  p <> EmptyString -> endsWithSlash p = false ->
  (if Q_OS_ANDROID o then String.prefix "content:/" p else false) = false ->
  currentFilePath (new_Iterator o p filters nameFilters) (Some name)
  = Some (p +:+ "/" +:+ name) /\
  currentFilePath (new_Iterator o (p +:+ "/") filters nameFilters) (Some name)
  = Some (p +:+ "/" +:+ name).
Proof.
  intros Hne Hs Hc.
  unfold currentFilePath, path, new_Iterator, appendSlashIfNeeded. simpl.
  rewrite endsWithSlash_append, andb_false_r, Hs.
  assert (String.eqb p EmptyString = false) as -> by (by destruct p).
  assert ((if Q_OS_ANDROID o then negb (String.prefix "content:/" p) else true)
          = true) as ->.
  { destruct (Q_OS_ANDROID o); [by rewrite Hc|done]. }
  simpl. by rewrite append_assoc.
Qed.

Lemma iterator_joins_with_one_slash_witness :
  "/usr/lib" <> EmptyString /\ endsWithSlash "/usr/lib" = false /\
  (if Q_OS_ANDROID Android then String.prefix "content:/" "/usr/lib" else false)
  = false /\
  (currentFilePath (new_Iterator Android "/usr/lib" 0 []) (Some "libz.so")
   = Some ("/usr/lib" +:+ "/" +:+ "libz.so") /\
   currentFilePath (new_Iterator Android ("/usr/lib" +:+ "/") 0 [])
     (Some "libz.so")
   = Some ("/usr/lib" +:+ "/" +:+ "libz.so")).
Proof.
  assert (H1 : "/usr/lib" <> EmptyString) by discriminate.
  assert (H2 : endsWithSlash "/usr/lib" = false) by reflexivity.
  assert (H3 : (if Q_OS_ANDROID Android
                then String.prefix "content:/" "/usr/lib" else false) = false)
    by reflexivity.
  split; [exact H1|]. split; [exact H2|]. split; [exact H3|].
  exact (iterator_joins_with_one_slash Android "/usr/lib" 0 [] "libz.so" H1 H2 H3).
Defined.

(** ** The registry of file engine handlers *)

Lemma handlerRun_snoc ops op g :
  handlerRun (ops ++ [op]) g = handlerStep op (handlerRun ops g).
Proof. unfold handlerRun. by rewrite foldl_snoc. Qed.

(** Before the list of handlers is destroyed, the flag is set exactly
    when there is a handler. *)
Lemma handlerRun_inv ops :
  qt_abstractfileenginehandlerlist_shutDown (handlerRun ops noHandlers) = false /\
  qt_file_engine_handlers_in_use (handlerRun ops noHandlers)
  = negb (isEmpty (fileEngineHandlers (handlerRun ops noHandlers))).
Proof.
  induction ops as [|op ops [IH1 IH2]] using rev_ind; [done|].
  rewrite handlerRun_snoc. destruct op as [this|this]; simpl.
  - done.
  - unfold unregisterHandler. rewrite IH1. simpl. split; [done|].
    destruct (removeOne _ _) eqn:E; [done|].
    rewrite IH2. destruct (fileEngineHandlers _); [done|done].
Qed.

Lemma removeOne_perm x l : x ∈ l -> l ≡ₚ x :: removeOne x l.
Proof.
  induction l as [|y l IH]; intros Hx; [by apply elem_of_nil in Hx|].
  simpl. destruct (Nat.eqb_spec x y) as [->|Hne]; [done|].
  apply elem_of_cons in Hx as [?|Hx]; [done|].
  rewrite (IH Hx) at 1. apply Permutation_swap.
Qed.

Lemma handlers_destructed l : forall g,
  qt_abstractfileenginehandlerlist_shutDown g = false ->
  qt_file_engine_handlers_in_use g = negb (isEmpty (fileEngineHandlers g)) ->
  fileEngineHandlers g ≡ₚ l ->
  handlerRun (map Destruct l) g = noHandlers.
Proof.
  induction l as [|x l IH]; intros g Hsd Hin Hp.
  - apply Permutation_nil_r in Hp. destruct g as [h u sd]; simpl in *.
    by subst.
  - change (handlerRun (map Destruct (x :: l)) g)
      with (handlerRun (map Destruct l) (unregisterHandler x g)).
    assert (Hx : x ∈ fileEngineHandlers g).
    { rewrite Hp. apply elem_of_cons. by left. }
    apply IH; unfold unregisterHandler; rewrite Hsd; simpl; [done| |].
    + destruct (removeOne _ _) eqn:E; [done|].
      rewrite Hin. by destruct (fileEngineHandlers g).
    + apply removeOne_perm in Hx. rewrite Hx in Hp.
      by apply Permutation_cons_inv in Hp.
Qed.

(** X13.  The flag is a sound shortcut.  In every state that
    constructing and destructing handlers leads to from the start of the
    program, [qt_custom_file_engine_handler_create] gives the engine of
    the first handler in the list that knows the path, and none if there
    is no such handler. *)
Theorem handlers_in_use_is_sound {Engine} (create : nat -> string -> option Engine)
  ops p :
  qt_custom_file_engine_handler_create create (handlerRun ops noHandlers) p
  = firstEngine create (fileEngineHandlers (handlerRun ops noHandlers)) p.
Proof.
  unfold qt_custom_file_engine_handler_create.
  destruct (handlerRun_inv ops) as [_ ->].
  by destruct (fileEngineHandlers _).
Qed.

(** X14.  The handler constructed last is asked first: its engine is
    taken if it knows the path, and otherwise the answer is what it was
    before the handler came.  Destructing that handler again gives back
    the registry as it was. *)
Theorem latest_handler_is_asked_first {Engine}
  (create : nat -> string -> option Engine) ops this p :
  let g := handlerRun ops noHandlers in
  qt_custom_file_engine_handler_create create (registerHandler this g) p
  = match create this p with
    | Some engine => Some engine
    | None => qt_custom_file_engine_handler_create create g p
    end /\
  unregisterHandler this (registerHandler this g) = g.
Proof.
  intros g. destruct (handlerRun_inv ops) as [Hsd Hin]. fold g in Hsd, Hin.
  split.
  - unfold qt_custom_file_engine_handler_create at 1. simpl.
    destruct (create this p); [done|].
    unfold qt_custom_file_engine_handler_create. rewrite Hin.
    by destruct (fileEngineHandlers g).
  - unfold unregisterHandler, registerHandler. simpl. rewrite Hsd. simpl.
    rewrite Nat.eqb_refl. destruct g as [h u sd]; simpl in *. subst.
    by destruct h.
Qed.

(** X15.  Once every handler of the list has been destructed, in
    whatever order, the registry is as it was at the start of the
    program: the list is empty and the flag is down. *)
Theorem all_handlers_destructed ops l :
  fileEngineHandlers (handlerRun ops noHandlers) ≡ₚ l ->
  handlerRun (ops ++ map Destruct l) noHandlers = noHandlers.
Proof.
  intros Hp. unfold handlerRun at 1. rewrite foldl_app.
  destruct (handlerRun_inv ops) as [Hsd Hin].
  by apply handlers_destructed.
Qed.

Lemma all_handlers_destructed_witness :
  let ops := [Construct 1; Construct 2; Destruct 1; Construct 3]%nat in
  fileEngineHandlers (handlerRun ops noHandlers) ≡ₚ [2; 3]%nat /\
  handlerRun (ops ++ map Destruct [2; 3]%nat) noHandlers = noHandlers.
Proof.
  intros ops.
  assert (H : fileEngineHandlers (handlerRun ops noHandlers) ≡ₚ [2; 3]%nat)
    by apply Permutation_swap.
  split; [exact H|]. exact (all_handlers_destructed ops [2; 3]%nat H).
Defined.

(** X16.  Once the list of handlers has been destroyed at the end of the
    program, the destructor of a handler leaves the registry alone,
    however many handlers are destructed after it. *)
Theorem handlers_outlive_their_list l g :
  handlerRun (map Destruct l) (shutDownHandlers g) = shutDownHandlers g.
Proof.
  induction l as [|x l IH]; [done|].
  change (handlerRun (map Destruct (x :: l)) (shutDownHandlers g))
    with (handlerRun (map Destruct l)
            (unregisterHandler x (shutDownHandlers g))).
  exact IH.
Qed.

(** ** readLine *)

Section ReadLineProperties.
Context {Device : Type} (read : Device -> Z * byte * Device).

(** What one run of the loop adds to the bytes stored so far. *)
Lemma readLineLoop_spec n : forall dev r d,
  r = Z.of_nat (length d) ->
  exists ret ext dev',
    readLineLoop read n dev r d = (ret, (d ++ ext)%list, dev') /\
    (length ext <= n)%nat /\
    Forall (fun c => c <> x0a) (removelast ext) /\
    (ret = -1 /\ ext = [] /\ d = [] /\ (0 < n)%nat \/
     ret = Z.of_nat (length (d ++ ext)) /\ (ext = [] -> n = O \/ d <> [])).
Proof.
  induction n as [|n IH]; intros dev r d Hr.
  - exists r, [], dev. rewrite app_nil_r. simpl.
    split; [done|]. split; [done|]. split; [constructor|]. right. auto.
  - simpl. destruct (read dev) as [[readResult c] dev1].
    destruct (Z.leb_spec readResult 0).
    + exists (if (0 <? r)%Z then r else -1), [], dev1. rewrite app_nil_r.
      split; [done|]. split; [simpl; lia|]. split; [constructor|].
      destruct (Z.ltb_spec 0 r).
      * right. split; [done|]. intros _. right. intros ->. simpl in Hr. lia.
      * left. split; [done|]. split; [done|]. split; [|lia].
        destruct d; [done|]. simpl in Hr. lia.
    + destruct (Byte.eqb c x0a) eqn:Ec.
      * exists (r + 1), [c], dev1. split; [done|]. split; [simpl; lia|].
        split; [constructor|]. right. split; [|done].
        rewrite length_app. simpl. lia.
      * destruct (IH dev1 (r + 1) (d ++ [c])%list)
          as (ret & ext & dev' & Hrun & Hlen & Hnl & Hret).
        { rewrite length_app. simpl. lia. }
        exists ret, (c :: ext), dev'. rewrite Hrun, <- app_assoc. simpl.
        split; [done|]. split; [lia|]. split.
        { destruct ext as [|c' ext]; [constructor|].
          change (removelast (c :: c' :: ext)) with (c :: removelast (c' :: ext)).
          constructor; [|done]. by apply eqb_false. }
        right. destruct Hret as [(_ & _ & Hd & _)|[Hret _]].
        { by destruct d. }
        split; [|done]. by rewrite Hret, <- app_assoc.
Qed.

End ReadLineProperties.

(** X17.  [readLine] stores at most [maxlen] bytes and returns their
    number, or -1 with nothing stored.  It returns 0 only when it was
    asked for no byte: where the first read gives nothing, the answer is
    -1. *)
Theorem readLine_result {Device} (read : Device -> Z * byte * Device) dev maxlen :
  let '(ret, data, _) := readLine read dev maxlen in
  Z.of_nat (length data) <= Z.max 0 maxlen /\
  (ret = Z.of_nat (length data) \/ ret = -1 /\ data = []) /\
  (ret = 0 <-> maxlen <= 0).
Proof.
  unfold readLine.
  destruct (readLineLoop_spec read (Z.to_nat maxlen) dev 0 [] eq_refl)
    as (ret & ext & dev' & -> & Hlen & _ & Hret).
  simpl. split; [lia|].
  destruct Hret as [(-> & -> & _ & Hn)|[-> He]].
  - split; [by right|]. split; [done|lia].
  - split; [by left|]. simpl in He. split.
    + intros H0. destruct ext; [|simpl in H0; lia].
      destruct He as [He|He]; [done|lia|done].
    + intros Hm. destruct ext; [done|]. simpl in Hlen. lia.
Qed.

(** X18.  [readLine] stops at the first new line: among the bytes it has
    stored, only the last one can be a new line. *)
Theorem readLine_stops_at_newline {Device} (read : Device -> Z * byte * Device)
  dev maxlen :
  Forall (fun c => c <> x0a) (removelast (readLine read dev maxlen).1.2).
Proof.
  unfold readLine.
  destruct (readLineLoop_spec read (Z.to_nat maxlen) dev 0 [] eq_refl)
    as (ret & ext & dev' & -> & _ & Hnl & _).
  done.
Qed.

Lemma firstLine_prefix buf : firstLine buf `prefix_of` buf.
Proof.
  induction buf as [|c buf IH]; [done|]. simpl.
  destruct (Byte.eqb c x0a).
  - by exists buf.
  - by apply prefix_cons.
Qed.

Lemma prefix_drop (t buf : list byte) :
  t `prefix_of` buf -> (t ++ drop (length t) buf)%list = buf.
Proof. intros [k ->]. by rewrite drop_app_length. Qed.

Lemma readLineLoop_buffer n : forall buf r d,
  r = Z.of_nat (length d) ->
  let t := take n (firstLine buf) in
  readLineLoop bufferRead n buf r d
  = ((if negb (n =? 0)%nat && isEmptyBuffer buf && (r =? 0)%Z then -1
      else r + Z.of_nat (length t)),
     (d ++ t)%list, drop (length t) buf).
Proof.
  induction n as [|n IH]; intros buf r d Hr t; subst t.
  - simpl. by rewrite app_nil_r, Z.add_0_r.
  - destruct buf as [|c buf]; simpl.
    + rewrite app_nil_r, Z.add_0_r.
      destruct (Z.ltb_spec 0 r), (Z.eqb_spec r 0); try done; lia.
    + destruct (Byte.eqb c x0a) eqn:Ec.
      * change (take (S n) [c]) with (c :: take n []). by rewrite take_nil.
      * rewrite (IH buf (r + 1) (d ++ [c])%list)
          by (rewrite length_app; simpl; lia).
        cbv zeta. rewrite <- app_assoc. simpl.
        destruct (Z.eqb_spec (r + 1) 0); [lia|].
        rewrite !andb_false_r. f_equal. f_equal. lia.
Qed.

(** X19.  Over an engine that hands out the bytes of a buffer,
    [readLine] stores the first line of the buffer, cut at [maxlen]
    bytes, and leaves the rest in the buffer: no byte is lost, none is
    read twice.  With the buffer at its end it returns -1. *)
Theorem readLine_takes_first_line buf maxlen :
  let '(ret, data, rest) := readLine bufferRead buf maxlen in
  data = take (Z.to_nat maxlen) (firstLine buf) /\
  (data ++ rest)%list = buf /\
  ret = if (0 <? maxlen)%Z && isEmptyBuffer buf then -1
        else Z.of_nat (length data).
Proof.
  unfold readLine. rewrite readLineLoop_buffer by done. cbv zeta. simpl.
  split; [done|]. split.
  - apply prefix_drop. etrans; [apply prefix_take|apply firstLine_prefix].
  - rewrite andb_true_r.
    destruct (Z.ltb_spec 0 maxlen), (Nat.eqb_spec (Z.to_nat maxlen) 0);
      try done; lia.
Qed.

(** X20.  An engine that does not reimplement [read] has no line to
    give: [readLine] returns -1 whenever it is asked for a byte. *)
Theorem readLine_without_read maxlen :
  readLine defaultRead tt maxlen = ((if (0 <? maxlen)%Z then -1 else 0), [], tt).
Proof.
  unfold readLine. destruct (Z.ltb_spec 0 maxlen).
  - destruct (Z.to_nat maxlen) eqn:E; [lia|done].
  - by replace (Z.to_nat maxlen) with O by lia.
Qed.
